(** * Concept groundings of INDRA statements: a shallow embedding

    Source: [indra/statements/concept.py] (class [Concept] and the
    module-level [default_ns_order]).

    Python values are embedded as the inductive [pyval], exceptions as the
    [Raise] branch of [outcome], the [db_refs] dictionaries as objects of a
    heap that concepts and serialised records point into, and the ontology
    and the logger as a trace of calls and a list of messages carried by the
    state of the monad [M]. *)

From Stdlib Require Import String Ascii List Bool Arith QArith Lia Sorted Permutation.
Import ListNotations.
Close Scope Q_scope.
Close Scope Z_scope.
Open Scope nat_scope.
Open Scope string_scope.
Open Scope list_scope.
Set Warnings "-register-all".

(* ===================================================================== *)
(** ** Python values *)
(* ===================================================================== *)

(** The exceptions the modelled code can raise. *)
Inductive exn : Set :=
| IndexError
| TypeError.

(** The result of evaluating an expression: a value, or a raised
    exception.  *)
Inductive outcome (A : Type) : Type :=
| Ok (a : A)
| Raise (e : exn).

Arguments Ok {A} a.
Arguments Raise {A} e.

Definition obind {A B : Type} (c : outcome A) (k : A -> outcome B) : outcome B :=
  match c with
  | Ok a => k a
  | Raise e => Raise e
  end.

Declare Scope outcome_scope.
Delimit Scope outcome_scope with outcome.
Notation "x <- c ;; k" := (obind c (fun x => k))
  (at level 61, c at next level, right associativity) : outcome_scope.
Open Scope outcome_scope.

(** The values that occur in [db_refs]: [None], [str], finite [float],
    [list] and [tuple].  A [str] is a sequence of code points below 256.
    A finite float is given by the text [repr] prints for it and by its
    exact value as a rational; the order and the truth value of a float
    are those of its value.  *)
Inductive pyval : Type :=
| PyNone
| PyStr (s : string)
| PyFloat (text : string) (q : Q)
| PyList (l : list pyval)
| PyTuple (l : list pyval).

(** [bool(v)], as used by [not v] and [all]. *)
Definition truthy (v : pyval) : bool :=
  match v with
  | PyNone => false
  | PyStr s => negb (s =? "")
  | PyFloat _ q => negb (Qeq_bool q 0%Q)
  | PyList l | PyTuple l => negb (Nat.eqb (List.length l) 0)
  end.

(** [isinstance(v, (list, tuple))]. *)
Definition is_list_or_tuple (v : pyval) : bool :=
  match v with
  | PyList _ | PyTuple _ => true
  | _ => false
  end.

(** [isinstance(v, list)]. *)
Definition is_list (v : pyval) : bool :=
  match v with
  | PyList _ => true
  | _ => false
  end.

(** [v[i]] for a non-negative literal index [i]. *)
Definition getitem (v : pyval) (i : nat) : outcome pyval :=
  match v with
  | PyList l | PyTuple l =>
      match nth_error l i with
      | Some x => Ok x
      | None => Raise IndexError
      end
  | PyStr s =>
      match String.get i s with
      | Some c => Ok (PyStr (String c ""))
      | None => Raise IndexError
      end
  | PyNone | PyFloat _ _ => Raise TypeError
  end.

(** [a == b] on the embedded values. *)
Fixpoint py_eq (a b : pyval) {struct a} : bool :=
  let fix eq_seq (l1 l2 : list pyval) {struct l1} : bool :=
    match l1, l2 with
    | [], [] => true
    | x :: l1', y :: l2' => py_eq x y && eq_seq l1' l2'
    | _, _ => false
    end in
  match a, b with
  | PyNone, PyNone => true
  | PyStr s, PyStr t => (s =? t)
  | PyFloat _ p, PyFloat _ q => Qeq_bool p q
  | PyList l1, PyList l2 => eq_seq l1 l2
  | PyTuple l1, PyTuple l2 => eq_seq l1 l2
  | _, _ => false
  end.

(** [a < b]: floats by value, strings by code points, lists with lists and
    tuples with tuples lexicographically (the first position where the
    elements are not [==] decides, then the lengths); any other pairing
    raises [TypeError]. *)
Fixpoint py_lt (a b : pyval) {struct a} : outcome bool :=
  let fix lt_seq (l1 l2 : list pyval) {struct l1} : outcome bool :=
    match l1, l2 with
    | [], [] => Ok false
    | [], _ :: _ => Ok true
    | _ :: _, [] => Ok false
    | x :: l1', y :: l2' => if py_eq x y then lt_seq l1' l2' else py_lt x y
    end in
  match a, b with
  | PyStr s, PyStr t => Ok (String.ltb s t)
  | PyFloat _ p, PyFloat _ q => Ok (negb (Qle_bool q p))
  | PyList l1, PyList l2 => lt_seq l1 l2
  | PyTuple l1, PyTuple l2 => lt_seq l1 l2
  | _, _ => Raise TypeError
  end.

(** Evaluate [f] on every element, left to right; the first exception
    ends the evaluation. *)
Fixpoint omap {A B : Type} (f : A -> outcome B) (l : list A) : outcome (list B) :=
  match l with
  | [] => Ok []
  | x :: l' =>
      y <- f x ;;
      ys <- omap f l' ;;
      Ok (y :: ys)
  end.

(** The elements [iter(v)] yields: a string yields its characters. *)
Fixpoint chars (s : string) : list pyval :=
  match s with
  | EmptyString => []
  | String c s' => PyStr (String c "") :: chars s'
  end.

Definition iterate (v : pyval) : outcome (list pyval) :=
  match v with
  | PyList l | PyTuple l => Ok l
  | PyStr s => Ok (chars s)
  | PyNone | PyFloat _ _ => Raise TypeError
  end.

(** [tuple(v)]. *)
Definition tuple (v : pyval) : outcome pyval :=
  l <- iterate v ;;
  Ok (PyTuple l).

(* ===================================================================== *)
(** ** [sorted(xs, key=lambda x: x[1], reverse=True)] *)
(* ===================================================================== *)

(** [lambda x: x[1]] *)
Definition second (x : pyval) : outcome pyval := getitem x 1.

(** One step of a stable ascending insertion sort on (key, item) pairs
    that only uses [<] on the keys: the new pair, which comes before the
    pairs of [l] in the input, goes in front of the first pair whose key
    is not smaller. *)
Fixpoint insert_keyed (kx : pyval * pyval) (l : list (pyval * pyval))
  : outcome (list (pyval * pyval)) :=
  match l with
  | [] => Ok [kx]
  | ky :: l' =>
      b <- py_lt (fst ky) (fst kx) ;;
      if b then (r <- insert_keyed kx l' ;; Ok (ky :: r))
      else Ok (kx :: ky :: l')
  end.

Fixpoint sort_keyed (l : list (pyval * pyval)) : outcome (list (pyval * pyval)) :=
  match l with
  | [] => Ok []
  | kx :: l' =>
      s <- sort_keyed l' ;;
      insert_keyed kx s
  end.

(** The keys are computed for all the items first.  With [reverse=True]
    the list is reversed, sorted ascending and stable, and reversed
    again, so that items with equal keys keep their order. *)
Definition sorted_reverse (key : pyval -> outcome pyval) (xs : pyval)
  : outcome (list pyval) :=
  items <- iterate xs ;;
  keys <- omap key items ;;
  s <- sort_keyed (rev (combine keys items)) ;;
  Ok (map snd (rev s)).

(* ===================================================================== *)
(** ** Dictionaries, the heap, concepts *)
(* ===================================================================== *)

(** A [dict] with string keys, in insertion order. *)
Definition dict : Type := list (string * pyval).

(** [d.get(k)]: [None] when the key is absent. *)
Fixpoint dict_get (d : dict) (k : string) : pyval :=
  match d with
  | [] => PyNone
  | (k', v) :: d' => if k' =? k then v else dict_get d' k
  end.

(** [d[k] = v]: an existing key keeps its place. *)
Fixpoint dict_set (d : dict) (k : string) (v : pyval) : dict :=
  match d with
  | [] => [(k, v)]
  | (k', v') :: d' =>
      if k' =? k then (k, v) :: d' else (k', v') :: dict_set d' k v
  end.

(** Keys of a dictionary are unique. *)
Definition dict_wf (d : dict) : Prop := NoDup (map fst d).

(** The heap holds the dictionary objects; a reference is the allocation
    index. *)
Definition ref : Set := nat.
Definition heap : Type := list dict.

Definition deref (h : heap) (r : ref) : dict := nth r h [].

Fixpoint heap_set (h : heap) (r : ref) (d : dict) : heap :=
  match h, r with
  | [], _ => []
  | _ :: h', O => d :: h'
  | d' :: h', S r' => d' :: heap_set h' r' d
  end.

(** A [Concept] object: its class (for [type(self)]), its [name] and the
    reference held in [self.db_refs]. *)
Record Concept : Type := mkConcept {
  cls : string;
  name : string;
  db_refs : ref
}.

(* ===================================================================== *)
(** ** Grounding resolution *)
(* ===================================================================== *)

Definition default_ns_order : list string :=
  ["WM"; "UN"; "HUME"; "SOFIA"; "CWMS"].

(** The body of the [for] loop of [get_grounding] once [db_id] is known to
    be truthy: the identifier that is returned with [db_ns]. *)
Definition pick_id (db_id : pyval) : outcome pyval :=
  if is_list_or_tuple db_id then
    db_id <- getitem db_id 0 ;;
    if is_list_or_tuple db_id then
      s <- sorted_reverse second db_id ;;
      top <- getitem (PyList s) 0 ;;
      getitem top 0
    else Ok db_id
  else Ok db_id.

(** The [for db_ns in ns_order] loop over the dictionary [d]. *)
Fixpoint scan (d : dict) (ns_order : list string) : outcome (pyval * pyval) :=
  match ns_order with
  | [] => Ok (PyNone, PyNone)
  | db_ns :: rest =>
      let db_id := dict_get d db_ns in
      if negb (truthy db_id) then scan d rest
      else
        db_id <- pick_id db_id ;;
        Ok (PyStr db_ns, db_id)
  end.

(** [ns_order if ns_order else default_ns_order]: [None] and the empty
    list select the default. *)
Definition effective_order (ns_order : option (list string)) : list string :=
  match ns_order with
  | Some (ns :: rest) => ns :: rest
  | _ => default_ns_order
  end.

(** [Concept.get_grounding]: reads [self.db_refs] in the heap. *)
Definition get_grounding (h : heap) (self : Concept)
           (ns_order : option (list string)) : outcome (pyval * pyval) :=
  scan (deref h (db_refs self)) (effective_order ns_order).

(* ===================================================================== *)
(** ** [repr] and [str] *)
(* ===================================================================== *)

Definition hex_digit (n : nat) : ascii :=
  match String.get n "0123456789abcdef" with
  | Some c => c
  | None => "0"%char
  end.

(** [\xhh], two lower-case hexadecimal digits. *)
Definition hex_escape (c : ascii) : string :=
  let n := nat_of_ascii c in
  String "\" (String "x" (String (hex_digit (n / 16)) (String (hex_digit (n mod 16)) ""))).

(** Code points below 256 that [repr] writes as an escape: the control
    characters, DEL, 0x80 to 0xa0 and the soft hyphen 0xad. *)
Definition nonprintable (c : ascii) : bool :=
  let n := nat_of_ascii c in
  (n <? 32)%nat || ((127 <=? n)%nat && (n <=? 160)%nat) || (n =? 173)%nat.

Definition squote : ascii := "'"%char.
Definition dquote : ascii := ascii_of_nat 34.
Definition backslash : ascii := "\"%char.

(** What [repr] writes for one character inside the quotes [quote]. *)
Definition escape_char (quote c : ascii) : string :=
  if Ascii.eqb c quote || Ascii.eqb c backslash then String backslash (String c "")
  else if Ascii.eqb c (ascii_of_nat 9) then String backslash "t"
  else if Ascii.eqb c (ascii_of_nat 10) then String backslash "n"
  else if Ascii.eqb c (ascii_of_nat 13) then String backslash "r"
  else if nonprintable c then hex_escape c
  else String c "".

Fixpoint escape (quote : ascii) (s : string) : string :=
  match s with
  | EmptyString => ""
  | String c s' => (escape_char quote c ++ escape quote s')%string
  end.

Fixpoint contains (c : ascii) (s : string) : bool :=
  match s with
  | EmptyString => false
  | String c' s' => Ascii.eqb c' c || contains c s'
  end.

(** Double quotes are chosen when the string has a single quote and no
    double quote. *)
Definition quote_of (s : string) : ascii :=
  if contains squote s && negb (contains dquote s) then dquote else squote.

(** [repr(s)] for a [str]. *)
Definition repr_str (s : string) : string :=
  let quote := quote_of s in
  String quote (escape quote s ++ String quote "")%string.

(** [repr(v)]. *)
Fixpoint py_repr (v : pyval) : string :=
  let fix repr_seq (l : list pyval) : string :=
    match l with
    | [] => ""
    | [x] => py_repr x
    | x :: l' => (py_repr x ++ ", " ++ repr_seq l')%string
    end in
  match v with
  | PyNone => "None"
  | PyStr s => repr_str s
  | PyFloat text _ => text
  | PyList l => ("[" ++ repr_seq l ++ "]")%string
  | PyTuple [x] => ("(" ++ py_repr x ++ ",)")%string
  | PyTuple l => ("(" ++ repr_seq l ++ ")")%string
  end.

(** [str(v)]: a string is its own [str]. *)
Definition py_str (v : pyval) : string :=
  match v with
  | PyStr s => s
  | _ => py_repr v
  end.

(* ===================================================================== *)
(** ** Identity *)
(* ===================================================================== *)

(** [Concept.entity_matches_key] *)
Definition entity_matches_key (h : heap) (self : Concept) : outcome string :=
  g <- get_grounding h self None ;;
  let '(db_ns, db_id) := g in
  if negb (truthy db_ns) && negb (truthy db_id) then Ok (name self)
  else Ok (py_str (PyTuple [db_ns; db_id])).

(** [Concept.matches_key] *)
Definition matches_key (h : heap) (self : Concept) : outcome string :=
  key <- entity_matches_key h self ;;
  Ok (py_str (PyStr key)).

(** [Concept.matches] *)
Definition matches (h : heap) (self other : Concept) : outcome bool :=
  k1 <- matches_key h self ;;
  k2 <- matches_key h other ;;
  Ok (k1 =? k2).

(** [Concept.entity_matches] *)
Definition entity_matches (h : heap) (self other : Concept) : outcome bool :=
  k1 <- entity_matches_key h self ;;
  k2 <- entity_matches_key h other ;;
  Ok (k1 =? k2).

(* ===================================================================== *)
(** ** The world: heap, log, ontology calls *)
(* ===================================================================== *)

(** A call received by the ontology collaborator. *)
Inductive ont_call : Type :=
| IsaCall (ns1 id1 ns2 id2 : pyval)
| IsOppositeCall (ns1 id1 ns2 id2 : pyval).

(** The ontology collaborator: its answers to the two queries. *)
Record Ontology : Type := mkOntology {
  ont_isa : pyval -> pyval -> pyval -> pyval -> bool;
  ont_is_opposite : pyval -> pyval -> pyval -> pyval -> bool
}.

Record world : Type := mkWorld {
  w_heap : heap;
  w_log : list string;
  w_calls : list ont_call
}.

(** Computations that may read and write the world and may raise. *)
Definition M (A : Type) : Type := world -> outcome A * world.

Definition ret {A : Type} (a : A) : M A := fun w => (Ok a, w).

Definition bind {A B : Type} (c : M A) (k : A -> M B) : M B :=
  fun w =>
    match c w with
    | (Ok a, w') => k a w'
    | (Raise e, w') => (Raise e, w')
    end.

Declare Scope M_scope.
Delimit Scope M_scope with M.
Notation "x <- c ;; k" := (bind c (fun x => k))
  (at level 61, c at next level, right associativity) : M_scope.
Notation "c ;;; k" := (bind c (fun _ => k))
  (at level 61, right associativity) : M_scope.

(** A computation that only reads the heap. *)
Definition reading {A : Type} (f : heap -> outcome A) : M A :=
  fun w => (f (w_heap w), w).

(** A new dictionary object. *)
Definition alloc (d : dict) : M ref :=
  fun w => (Ok (List.length (w_heap w)),
            mkWorld (w_heap w ++ [d]) (w_log w) (w_calls w)).

(** [r[k] = v] *)
Definition setitem (r : ref) (k : string) (v : pyval) : M unit :=
  fun w => (Ok tt,
            mkWorld (heap_set (w_heap w) r (dict_set (deref (w_heap w) r) k v))
                    (w_log w) (w_calls w)).

(** [logger.error(msg)] *)
Definition logger_error (msg : string) : M unit :=
  fun w => (Ok tt, mkWorld (w_heap w) (w_log w ++ [msg]) (w_calls w)).

(** The world after one more call to the ontology. *)
Definition called (w : world) (c : ont_call) : world :=
  mkWorld (w_heap w) (w_log w) (w_calls w ++ [c]).

(** [ontology.isa(ns1, id1, ns2, id2)] *)
Definition call_isa (ontology : Ontology) (ns1 id1 ns2 id2 : pyval) : M bool :=
  fun w => (Ok (ont_isa ontology ns1 id1 ns2 id2),
            called w (IsaCall ns1 id1 ns2 id2)).

(** [ontology.is_opposite(ns1, id1, ns2, id2)] *)
Definition call_is_opposite (ontology : Ontology) (ns1 id1 ns2 id2 : pyval) : M bool :=
  fun w => (Ok (ont_is_opposite ontology ns1 id1 ns2 id2),
            called w (IsOppositeCall ns1 id1 ns2 id2)).

(* ===================================================================== *)
(** ** Ontology relations *)
(* ===================================================================== *)

Open Scope M_scope.

(** [Concept.isa] *)
Definition isa (self other : Concept) (ontology : Ontology) : M bool :=
  g1 <- reading (fun h => get_grounding h self None) ;;
  let '(self_ns, self_id) := g1 in
  g2 <- reading (fun h => get_grounding h other None) ;;
  let '(other_ns, other_id) := g2 in
  if negb (forallb truthy [self_ns; self_id; other_ns; other_id]) then ret false
  else call_isa ontology self_ns self_id other_ns other_id.

(** [Concept.is_opposite] *)
Definition is_opposite (self other : Concept) (ontology : Ontology) : M bool :=
  g1 <- reading (fun h => get_grounding h self None) ;;
  let '(self_ns, self_id) := g1 in
  g2 <- reading (fun h => get_grounding h other None) ;;
  let '(other_ns, other_id) := g2 in
  if negb (forallb truthy [self_ns; self_id; other_ns; other_id]) then ret false
  else call_is_opposite ontology self_ns self_id other_ns other_id.

(** [Concept.refinement_of] *)
Definition refinement_of (self other : Concept) (ontology : Ontology)
           (entities_refined : bool) : M bool :=
  if negb (cls self =? cls other)%string then ret false
  else if entities_refined then ret true
  else
    m <- reading (fun h => entity_matches h self other) ;;
    if m then ret true
    else
      r <- isa self other ontology ;;
      if r then ret true else ret false.

(* ===================================================================== *)
(** ** Serialisation *)
(* ===================================================================== *)

(** The record [to_json] builds and [_from_json] reads: the two fields,
    each possibly absent ([json_dict.get] then gives its default). *)
Record json : Type := mkJson {
  j_name : option string;
  j_db_refs : option ref
}.

(** [Concept.__init__]: [db_refs if db_refs else {}]. *)
Definition Concept_init (name : string) (db_refs : option ref) : M Concept :=
  match db_refs with
  | Some r =>
      d <- reading (fun h => Ok (deref h r)) ;;
      match d with
      | _ :: _ => ret (mkConcept "Concept" name r)
      | [] => r' <- alloc [] ;; ret (mkConcept "Concept" name r')
      end
  | None => r' <- alloc [] ;; ret (mkConcept "Concept" name r')
  end.

(** [Concept.to_json] *)
Definition to_json (self : Concept) : M json :=
  ret (mkJson (Some (name self)) (Some (db_refs self))).

(** The loop [for key, val in db_refs.items()] of [_from_json]. *)
Fixpoint fix_items (db_refs : ref) (items : list (string * pyval)) : M unit :=
  match items with
  | [] => ret tt
  | (key, val) :: rest =>
      (if is_list val then
         l <- reading (fun _ => (vs <- iterate val ;; omap tuple vs)%outcome) ;;
         setitem db_refs key (PyList l)
       else ret tt) ;;;
      fix_items db_refs rest
  end.

(** [Concept._from_json] *)
Definition _from_json (json_dict : json) : M (option Concept) :=
  let name := j_name json_dict in
  db_refs <- match j_db_refs json_dict with
             | Some r => ret r
             | None => alloc []
             end ;;
  match name with
  | None | Some EmptyString =>
      logger_error "Concept missing name." ;;;
      ret None
  | Some name =>
      items <- reading (fun h => Ok (deref h db_refs)) ;;
      fix_items db_refs items ;;;
      concept <- Concept_init name (Some db_refs) ;;
      ret (Some concept)
  end.

Close Scope M_scope.

(* ===================================================================== *)
(** ** Reading a [repr] back *)
(* ===================================================================== *)

(** The two characters [repr] may put around a string. *)
Definition is_quote (q : ascii) : Prop := q = squote \/ q = dquote.

(** The value of a hexadecimal digit. *)
Definition hex_value (c : ascii) : nat :=
  let n := nat_of_ascii c in
  if (n <? 58)%nat then n - 48 else n - 87.

(** Reads the text [repr] wrote for one character inside the quotes
    [quote]: the character and the rest of the text. *)
Definition decode_char (quote : ascii) (s : string) : option (ascii * string) :=
  match s with
  | EmptyString => None
  | String c rest =>
      if Ascii.eqb c backslash then
        match rest with
        | EmptyString => None
        | String e rest' =>
            if Ascii.eqb e quote || Ascii.eqb e backslash then Some (e, rest')
            else if Ascii.eqb e "t" then Some (ascii_of_nat 9, rest')
            else if Ascii.eqb e "n" then Some (ascii_of_nat 10, rest')
            else if Ascii.eqb e "r" then Some (ascii_of_nat 13, rest')
            else
              match rest' with
              | String h1 (String h2 rest'') =>
                  Some (ascii_of_nat (16 * hex_value h1 + hex_value h2), rest'')
              | _ => None
              end
        end
      else Some (c, rest)
  end.

(* ===================================================================== *)
(** ** The effect of [_from_json] on a dictionary *)
(* ===================================================================== *)

(** [[tuple(v) for v in l]] when no element raises. *)
Definition tuples_of (l : list pyval) : list pyval :=
  match omap tuple l with
  | Ok l' => l'
  | Raise _ => l
  end.

(** What the loop of [_from_json] leaves under a key. *)
Definition fix_value (v : pyval) : pyval :=
  match v with
  | PyList l => PyList (tuples_of l)
  | _ => v
  end.

Definition fix_entry (kv : string * pyval) : string * pyval :=
  (fst kv, fix_value (snd kv)).

Definition is_tuple (v : pyval) : bool :=
  match v with
  | PyTuple _ => true
  | _ => false
  end.

(** [iter(v)] does not raise. *)
Definition is_iterable (v : pyval) : bool :=
  match v with
  | PyStr _ | PyList _ | PyTuple _ => true
  | PyNone | PyFloat _ _ => false
  end.

(** An ordered pair. *)
Definition is_pair (v : pyval) : bool :=
  match v with
  | PyTuple [_; _] => true
  | _ => false
  end.

(** A [db_refs] value that is a scalar string or a sequence of pairs. *)
Definition scalar_or_pairs (v : pyval) : bool :=
  match v with
  | PyStr _ => true
  | PyList l | PyTuple l => forallb is_pair l
  | PyNone | PyFloat _ _ => false
  end.

(** The list-valued entries of a dictionary. *)
Definition list_entry (d : dict) (k : string) (l : list pyval) : Prop :=
  In (k, PyList l) d.

(** [from_record(to_record(c))] *)
Definition round_trip (c : Concept) : M (option Concept) :=
  bind (to_json c) _from_json.

(* ===================================================================== *)
(** ** Scored candidates *)
(* ===================================================================== *)

(** A scored candidate [(identifier, score)]. *)
Record scored : Type := mkScored {
  s_id : string;
  s_text : string;
  s_score : Q
}.

Definition score_key (p : scored) : pyval := PyFloat (s_text p) (s_score p).

Definition scored_pair (p : scored) : pyval := PyTuple [PyStr (s_id p); score_key p].

Definition keyed (p : scored) : pyval * pyval := (score_key p, scored_pair p).

(** The score of [a] is below that of [b]. *)
Definition lower (a b : scored) : bool := negb (Qle_bool (s_score b) (s_score a)).

Fixpoint insert_scored (x : scored) (l : list scored) : list scored :=
  match l with
  | [] => [x]
  | y :: l' => if lower y x then y :: insert_scored x l' else x :: y :: l'
  end.

Definition sort_scored (l : list scored) : list scored :=
  fold_right insert_scored [] l.

(** The best candidate so far, and one more: only a higher score
    replaces it. *)
Definition better (best : option scored) (p : scored) : option scored :=
  match best with
  | None => Some p
  | Some b => if lower b p then Some p else Some b
  end.

(** The candidate with the highest score, the earliest of them. *)
Definition top_scored (ps : list scored) : option scored :=
  fold_left better ps None.

(** [m] is the last element of [s] and no element has a higher score. *)
Definition is_top (s : list scored) (m : scored) : Prop :=
  (exists s', s = s' ++ [m]) /\ (forall y, In y s -> lower m y = false).

(* ===================================================================== *)
(** ** Strict equality *)
(* ===================================================================== *)

(** [k in d] *)
Definition dict_has (d : dict) (k : string) : bool :=
  existsb (fun kv => fst kv =? k) d.

(** [d1 == d2] for dictionaries: the same number of keys, and every key
    of [d1] is a key of [d2] with an equal value. *)
Definition dict_eq (d1 d2 : dict) : bool :=
  Nat.eqb (List.length d1) (List.length d2)
  && forallb (fun kv => dict_has d2 (fst kv)
                        && py_eq (snd kv) (dict_get d2 (fst kv))) d1.

(** [Concept.equals] *)
Definition equals (h : heap) (self other : Concept) : bool :=
  (name self =? name other)
  && dict_eq (deref h (db_refs self)) (deref h (db_refs other)).

(* ===================================================================== *)
(** ** The gene assembler

    Source: [indra/assemblers/genes/assembler.py] (class
    [GeneAssembler]). *)
(* ===================================================================== *)

(** A statement is used through [statement.agent_list()] only, which
    returns a list of agents, [None] among them, or raises.  An agent is
    used through [agent.name] and [agent.db_refs] only. *)
Record Statement : Type := mkStatement {
  agent_list : outcome (list (option Concept))
}.

(** [s.add(x)] on a set of strings, kept as a list without repetition. *)
Definition set_add (x : string) (s : list string) : list string :=
  if existsb (String.eqb x) s then s else s ++ [x].

Record GeneAssembler : Type := mkGeneAssembler {
  stmts : list Statement;
  genes : list string
}.

(** [GeneAssembler.__init__]: [stmts or []] and an empty set. *)
Definition GeneAssembler_init (stmts : option (list Statement)) : GeneAssembler :=
  mkGeneAssembler (match stmts with Some l => l | None => [] end) [].

(** The loop [for agent in agents] of [make_model]. *)
Fixpoint add_agents (h : heap) (agents : list (option Concept))
         (genes : list string) : list string :=
  match agents with
  | [] => genes
  | None :: rest => add_agents h rest genes
  | Some agent :: rest =>
      if dict_has (deref h (db_refs agent)) "HGNC"
      then add_agents h rest (set_add (name agent) genes)
      else add_agents h rest genes
  end.

(** The loop [for statement in self.stmts] of [make_model]. *)
Fixpoint add_statements (h : heap) (stmts : list Statement)
         (genes : list string) : list string :=
  match stmts with
  | [] => genes
  | statement :: rest =>
      match agent_list statement with
      | Raise _ => add_statements h rest genes
      | Ok agents => add_statements h rest (add_agents h agents genes)
      end
  end.

(** The gene an agent contributes: its name, when its [db_refs] has the
    key HGNC. *)
Definition contributes (h : heap) (agents : list (option Concept)) (g : string) : Prop :=
  exists agent,
    In (Some agent) agents
    /\ dict_has (deref h (db_refs agent)) "HGNC" = true
    /\ name agent = g.

(** [GeneAssembler.make_model]: the assembler after the call; the set
    that is returned is its [genes]. *)
Definition make_model (h : heap) (self : GeneAssembler) : GeneAssembler :=
  mkGeneAssembler (stmts self) (add_statements h (stmts self) (genes self)).

(** [sorted(xs)] on strings: ascending, by [<] on the code points. *)
Fixpoint insert_str (x : string) (l : list string) : list string :=
  match l with
  | [] => [x]
  | y :: l' => if String.ltb y x then y :: insert_str x l' else x :: y :: l'
  end.

Fixpoint sorted_str (l : list string) : list string :=
  match l with
  | [] => []
  | x :: l' => insert_str x (sorted_str l')
  end.

Definition newline : string := String (ascii_of_nat 10) "".

(** [GeneAssembler.to_gsea_str] *)
Definition to_gsea_str (self : GeneAssembler) (first : string) : string :=
  (first ++ newline ++ String.concat newline (sorted_str (genes self)))%string.

(** The default of [first]. *)
Definition default_first : string := "# INDRA Genes".

(** No string of [l] is below the one before it. *)
Definition ascending (l : list string) : Prop :=
  Sorted (fun a b => String.ltb b a = false) l.

(* ===================================================================== *)
(** ** Calls to the ontology *)
(* ===================================================================== *)

(** The trace of calls [t'] is [t], or [t] with one call [c] for which
    [ok] holds at its end. *)
Definition at_most_one_call (ok : ont_call -> Prop) (t t' : list ont_call) : Prop :=
  t' = t \/ exists c, ok c /\ t' = t ++ [c].

Definition is_isa_call (c : ont_call) : Prop :=
  match c with
  | IsaCall _ _ _ _ => True
  | IsOppositeCall _ _ _ _ => False
  end.

Definition is_opposite_call (c : ont_call) : Prop :=
  match c with
  | IsaCall _ _ _ _ => False
  | IsOppositeCall _ _ _ _ => True
  end.

(* ===================================================================== *)
(** ** Grounding resolution: the priority scan *)
(* ===================================================================== *)

Section Scan.

Variable d : dict.

Lemma scan_skip (pre rest : list string) :
  (forall n, In n pre -> truthy (dict_get d n) = false) ->
  scan d (pre ++ rest) = scan d rest.
Proof.
  induction pre as [|n pre IH]; intros Hpre; simpl.
  - reflexivity.
  - rewrite (Hpre n (or_introl eq_refl)). simpl.
    apply IH. intros m Hm. apply Hpre. now right.
Qed.

Lemma scan_hit (ns : string) (post : list string) :
  truthy (dict_get d ns) = true ->
  scan d (ns :: post) =
    (db_id <- pick_id (dict_get d ns) ;; Ok (PyStr ns, db_id)).
Proof.
  intros Hns. simpl. now rewrite Hns.
Qed.

Lemma scan_first_truthy (pre : list string) (ns : string) (post : list string) :
  (forall n, In n pre -> truthy (dict_get d n) = false) ->
  truthy (dict_get d ns) = true ->
  scan d (pre ++ ns :: post) =
    (db_id <- pick_id (dict_get d ns) ;; Ok (PyStr ns, db_id)).
Proof.
  intros Hpre Hns. rewrite scan_skip by assumption. now apply scan_hit.
Qed.

Lemma scan_none (order : list string) :
  (forall n, In n order -> truthy (dict_get d n) = false) ->
  scan d order = Ok (PyNone, PyNone).
Proof.
  intros Hall. rewrite <- (app_nil_r order). now rewrite scan_skip.
Qed.

(** A namespace that is returned comes from the order that was scanned. *)
Lemma scan_namespace (order : list string) (db_ns db_id : pyval) :
  scan d order = Ok (db_ns, db_id) ->
  (db_ns = PyNone /\ db_id = PyNone) \/
  (exists ns, db_ns = PyStr ns /\ In ns order).
Proof.
  induction order as [|n order IH]; simpl; intros H.
  - left. now inversion H.
  - destruct (truthy (dict_get d n)); simpl in H.
    + destruct (pick_id (dict_get d n)) as [i|e]; simpl in H; [|discriminate].
      inversion H; subst. right. exists n. auto.
    + destruct (IH H) as [Hn | [ns [Hns Hin]]]; [now left|].
      right. exists ns. auto.
Qed.

End Scan.

(** A flat sequence of (identifier, score) pairs: the first pair is taken
    for the candidate list, and sorting it asks for [x[1]] of the
    identifier and of the score. *)
Lemma pick_id_flat_pairs (i text : string) (q : Q) (rest : list pyval) :
  let pairs := PyTuple [PyStr i; PyFloat text q] :: rest in
  let e := if (String.length i <? 2)%nat then IndexError else TypeError in
  pick_id (PyList pairs) = Raise e /\ pick_id (PyTuple pairs) = Raise e.
Proof.
  unfold pick_id, sorted_reverse, second. simpl.
  destruct i as [|a [|b i]]; simpl; auto.
Qed.

(* ===================================================================== *)
(** ** Scored candidates one level down *)
(* ===================================================================== *)

Lemma lower_lt (a b : scored) :
  lower a b = true <-> (s_score a < s_score b)%Q.
Proof.
  unfold lower. rewrite negb_true_iff. split.
  - intros H. apply Qnot_le_lt. intros Hle.
    apply Qle_bool_iff in Hle. congruence.
  - intros H. destruct (Qle_bool (s_score b) (s_score a)) eqn:E; [|reflexivity].
    apply Qle_bool_iff in E. now apply Qlt_not_le in H.
Qed.

Lemma lower_ge (a b : scored) :
  lower a b = false <-> (s_score b <= s_score a)%Q.
Proof.
  unfold lower. rewrite negb_false_iff. apply Qle_bool_iff.
Qed.

Lemma insert_keyed_scored (x : scored) (l : list scored) :
  insert_keyed (keyed x) (map keyed l) = Ok (map keyed (insert_scored x l)).
Proof.
  induction l as [|y l IH]; [reflexivity|].
  cbn [map insert_keyed insert_scored].
  change (py_lt (fst (keyed y)) (fst (keyed x))) with (Ok (lower y x)).
  cbn [obind]. destruct (lower y x); [|reflexivity].
  now rewrite IH.
Qed.

Lemma sort_keyed_scored (l : list scored) :
  sort_keyed (map keyed l) = Ok (map keyed (sort_scored l)).
Proof.
  induction l as [|x l IH]; [reflexivity|].
  cbn [map sort_keyed]. rewrite IH. cbn [obind].
  apply insert_keyed_scored.
Qed.

Lemma insert_top (x : scored) (s : list scored) (m : scored) :
  is_top s m ->
  is_top (insert_scored x s) (if lower m x then x else m).
Proof.
  intros [[s' Hs] Hmax]. subst s. revert Hmax.
  induction s' as [|y s' IH]; intros Hmax.
  - cbn [app insert_scored]. destruct (lower m x) eqn:E.
    + split; [now exists [m]|].
      intros z [<- | [<- | []]].
      * apply lower_ge, Qlt_le_weak, lower_lt, E.
      * apply lower_ge, Qle_refl.
    + split; [now exists [x]|].
      intros z [<- | [<- | []]]; [exact E | apply lower_ge, Qle_refl].
  - cbn [app insert_scored].
    assert (Hy : lower m y = false) by (apply Hmax; now left).
    assert (Hmax' : forall z, In z (s' ++ [m]) -> lower m z = false)
      by (intros z Hz; apply Hmax; now right).
    destruct (lower y x) eqn:E.
    + destruct (IH Hmax') as [[r Hr] Hall]. split.
      * exists (y :: r). now rewrite Hr.
      * intros z [<- | Hz]; [|now apply Hall].
        destruct (lower m x) eqn:E'; [|exact Hy].
        apply lower_ge, Qlt_le_weak, lower_lt, E.
    + assert (Hx : lower m x = false).
      { apply lower_ge. apply Qle_trans with (s_score y); now apply lower_ge. }
      rewrite Hx. split.
      * now exists (x :: y :: s').
      * intros z [<- | Hz]; [exact Hx | now apply Hmax].
Qed.

Lemma sort_top (l : list scored) :
  match fold_right (fun x acc => better acc x) None l with
  | None => sort_scored l = []
  | Some m => is_top (sort_scored l) m
  end.
Proof.
  induction l as [|x l IH]; [reflexivity|].
  cbn [fold_right sort_scored].
  fold (sort_scored l).
  destruct (fold_right (fun x acc => better acc x) None l) as [m|]; cbn [better].
  - apply (insert_top x) in IH. now destruct (lower m x).
  - rewrite IH. split; [now exists []|].
    intros z [<- | []]. apply lower_ge, Qle_refl.
Qed.

Lemma top_scored_rev (ps : list scored) :
  fold_right (fun x acc => better acc x) None (rev ps) = top_scored ps.
Proof.
  unfold top_scored. apply fold_left_rev_right.
Qed.

Lemma omap_second_scored (ps : list scored) :
  omap second (map scored_pair ps) = Ok (map score_key ps).
Proof.
  induction ps as [|p ps IH]; [reflexivity|].
  cbn [map omap]. rewrite IH. reflexivity.
Qed.

Lemma combine_keyed (ps : list scored) :
  combine (map score_key ps) (map scored_pair ps) = map keyed ps.
Proof.
  induction ps as [|p ps IH]; [reflexivity|]. cbn [map combine]. now rewrite IH.
Qed.

(** What the code is written for: the first element of the entry is
    itself the sequence of (identifier, score) pairs.  The identifier of
    the pair with the highest score is picked, the earliest one among
    equal scores; no pair at all raises [IndexError]. *)
Lemma pick_id_nested_scored (ps : list scored) (others : list pyval) :
  pick_id (PyList (PyList (map scored_pair ps) :: others))
  = match top_scored ps with
    | Some p => Ok (PyStr (s_id p))
    | None => Raise IndexError
    end.
Proof.
  unfold pick_id, sorted_reverse.
  cbn [is_list_or_tuple getitem nth_error obind iterate].
  rewrite omap_second_scored. cbn [obind].
  rewrite combine_keyed, <- map_rev, sort_keyed_scored. cbn [obind].
  rewrite <- map_rev, map_map. cbn [keyed snd].
  pose proof (sort_top (rev ps)) as Htop. rewrite top_scored_rev in Htop.
  destruct (top_scored ps) as [m|].
  - destruct Htop as [[s' Hs] _]. rewrite Hs, rev_app_distr. reflexivity.
  - rewrite Htop. reflexivity.
Qed.

Lemma top_scored_snoc (ps : list scored) (x : scored) :
  top_scored (ps ++ [x]) = better (top_scored ps) x.
Proof.
  unfold top_scored. now rewrite fold_left_app.
Qed.

(** [top_scored] is the pair with the highest score, and the earliest of
    those: the pairs before it score strictly less, the pairs after it
    score at most as much. *)
Lemma top_scored_spec (ps : list scored) :
  match top_scored ps with
  | None => ps = []
  | Some m =>
      exists pre post,
        ps = pre ++ m :: post
        /\ (forall p, In p pre -> (s_score p < s_score m)%Q)
        /\ (forall p, In p post -> (s_score p <= s_score m)%Q)
  end.
Proof.
  induction ps as [|x ps IH] using rev_ind; [reflexivity|].
  rewrite top_scored_snoc.
  destruct (top_scored ps) as [b|]; cbn [better].
  - destruct IH as [pre [post [Hps [Hpre Hpost]]]].
    destruct (lower b x) eqn:E.
    + exists ps, []. split; [reflexivity|]. split; [|intros p []].
      apply lower_lt in E. intros p Hp. rewrite Hps in Hp.
      apply in_app_or in Hp. destruct Hp as [Hp | [<- | Hp]].
      * apply Qlt_trans with (s_score b); [now apply Hpre | exact E].
      * exact E.
      * apply Qle_lt_trans with (s_score b); [now apply Hpost | exact E].
    + exists pre, (post ++ [x]). split; [|split].
      * rewrite Hps, <- app_assoc. reflexivity.
      * exact Hpre.
      * intros p Hp. apply in_app_or in Hp. destruct Hp as [Hp | [<- | []]].
        -- now apply Hpost.
        -- now apply lower_ge.
  - subst ps. exists [], []. repeat split; intros p [].
Qed.

(** C1, at the input of the specification: with
    [db_refs = {"WM": [("a", 0.3), ("b", 0.9)]}] and the default order,
    [get_grounding] does not return [("WM", "b")]; it raises [IndexError],
    from ["a"[1]] in the sort key. *)
Theorem get_grounding_scored_flat_raises :
  forall (h : heap) (self : Concept),
    deref h (db_refs self) =
      [("WM", PyList [PyTuple [PyStr "a"; PyFloat "0.3" (3 # 10)%Q];
                      PyTuple [PyStr "b"; PyFloat "0.9" (9 # 10)%Q]])] ->
    get_grounding h self None = Raise IndexError.
Proof.
  intros h self Hd. unfold get_grounding. rewrite Hd. reflexivity.
Qed.

Lemma get_grounding_scored_flat_raises_witness :
  get_grounding
    [[("WM", PyList [PyTuple [PyStr "a"; PyFloat "0.3" (3 # 10)%Q];
                     PyTuple [PyStr "b"; PyFloat "0.9" (9 # 10)%Q]])]]
    (mkConcept "Concept" "n" 0) None = Raise IndexError.
Proof.
  apply get_grounding_scored_flat_raises. reflexivity.
Defined.

(** C2: [get_grounding] scans the priority order in sequence.  The first
    namespace whose entry in [db_refs] is truthy decides the result, which
    is that namespace with the identifier picked from its entry; when no
    namespace of the order has a truthy entry the result is
    [(None, None)].  With the default order and
    [db_refs = {"UN": "x", "WM": "y"}] the result is [("WM", "y")]. *)
Theorem get_grounding_priority_scan :
  forall (h : heap) (self : Concept) (ns_order : option (list string)),
    let d := deref h (db_refs self) in
    let order := effective_order ns_order in
    (forall pre ns post,
        order = pre ++ ns :: post ->
        (forall n, In n pre -> truthy (dict_get d n) = false) ->
        truthy (dict_get d ns) = true ->
        get_grounding h self ns_order =
          (db_id <- pick_id (dict_get d ns) ;; Ok (PyStr ns, db_id)))
    /\ ((forall n, In n order -> truthy (dict_get d n) = false) ->
        get_grounding h self ns_order = Ok (PyNone, PyNone))
    /\ (effective_order None = ["WM"; "UN"; "HUME"; "SOFIA"; "CWMS"]
        /\ (d = [("UN", PyStr "x"); ("WM", PyStr "y")] ->
            get_grounding h self None = Ok (PyStr "WM", PyStr "y"))).
Proof.
  intros h self ns_order d order. unfold get_grounding. fold d. fold order.
  repeat split.
  - intros pre ns post Horder Hpre Hns. rewrite Horder.
    now apply scan_first_truthy.
  - apply scan_none.
  - intros Hd. rewrite Hd. reflexivity.
Qed.

Lemma get_grounding_priority_scan_witness :
  get_grounding [[("UN", PyStr "x"); ("HUME", PyList [PyStr "h"; PyStr "k"])]]
                (mkConcept "Concept" "n" 0) (Some ["WM"; "HUME"; "UN"])
    = Ok (PyStr "HUME", PyStr "h")
  /\ get_grounding [[("TEXT", PyStr "x"); ("WM", PyList [])]]
                   (mkConcept "Concept" "n" 0) None
    = Ok (PyNone, PyNone)
  /\ get_grounding [[("UN", PyStr "x"); ("WM", PyStr "y")]]
                   (mkConcept "Concept" "n" 0) None
    = Ok (PyStr "WM", PyStr "y").
Proof.
  split; [|split].
  - apply (proj1 (get_grounding_priority_scan
                    [[("UN", PyStr "x"); ("HUME", PyList [PyStr "h"; PyStr "k"])]]
                    (mkConcept "Concept" "n" 0) (Some ["WM"; "HUME"; "UN"]))
             ["WM"] "HUME" ["UN"]).
    + reflexivity.
    + intros n [Hn | []]. subst n. reflexivity.
    + reflexivity.
  - apply (proj1 (proj2 (get_grounding_priority_scan
                    [[("TEXT", PyStr "x"); ("WM", PyList [])]]
                    (mkConcept "Concept" "n" 0) None))).
    intros n Hn. simpl in Hn.
    repeat (destruct Hn as [Hn | Hn]; [subst n; reflexivity|]). destruct Hn.
  - apply (proj2 (proj2 (proj2 (get_grounding_priority_scan
                    [[("UN", PyStr "x"); ("WM", PyStr "y")]]
                    (mkConcept "Concept" "n" 0) None)))).
    reflexivity.
Defined.

(** C3, as stated, fails: with [db_refs = {"WM": [""], "UN": "x"}] the
    entry of WM is truthy, the identifier picked from it is the empty
    string, and [get_grounding] returns [("WM", "")]; it does not go on to
    UN, which would give [("UN", "x")]. *)
Lemma get_grounding_falsy_id_not_skipped :
  let d := [("WM", PyList [PyStr ""]); ("UN", PyStr "x")] in
  let self := mkConcept "Concept" "n" 0 in
  truthy (dict_get d "WM") = true
  /\ pick_id (dict_get d "WM") = Ok (PyStr "")
  /\ truthy (PyStr "") = false
  /\ get_grounding [d] self None = Ok (PyStr "WM", PyStr "")
  /\ scan d ["UN"; "HUME"; "SOFIA"; "CWMS"] = Ok (PyStr "UN", PyStr "x")
  /\ get_grounding [d] self None <> scan d ["UN"; "HUME"; "SOFIA"; "CWMS"].
Proof.
  cbv zeta. repeat split; try reflexivity. discriminate.
Qed.

(** C3, amended: when the entry of the first namespace with a truthy
    entry yields a falsy identifier, [get_grounding] returns that
    namespace with the falsy identifier and looks at no later
    namespace. *)
Theorem get_grounding_returns_falsy_id :
  forall (h : heap) (self : Concept) (ns_order : option (list string))
         (pre : list string) (ns : string) (post : list string) (db_id : pyval),
    let d := deref h (db_refs self) in
    effective_order ns_order = pre ++ ns :: post ->
    (forall n, In n pre -> truthy (dict_get d n) = false) ->
    truthy (dict_get d ns) = true ->
    pick_id (dict_get d ns) = Ok db_id ->
    truthy db_id = false ->
    get_grounding h self ns_order = Ok (PyStr ns, db_id).
Proof.
  intros h self ns_order pre ns post db_id d Horder Hpre Hns Hpick _.
  unfold get_grounding. fold d. rewrite Horder.
  rewrite scan_first_truthy by assumption. now rewrite Hpick.
Qed.

Lemma get_grounding_returns_falsy_id_witness :
  get_grounding [[("WM", PyList [PyStr ""]); ("UN", PyStr "x")]]
                (mkConcept "Concept" "n" 0) None
    = Ok (PyStr "WM", PyStr "").
Proof.
  apply (get_grounding_returns_falsy_id
           [[("WM", PyList [PyStr ""]); ("UN", PyStr "x")]]
           (mkConcept "Concept" "n" 0) None
           [] "WM" ["UN"; "HUME"; "SOFIA"; "CWMS"] (PyStr "")).
  - reflexivity.
  - intros n [].
  - reflexivity.
  - reflexivity.
  - reflexivity.
Defined.

(* ===================================================================== *)
(** ** [repr] of a string can be read back *)
(* ===================================================================== *)

Lemma string_app_assoc (a b c : string) :
  ((a ++ b) ++ c)%string = (a ++ (b ++ c))%string.
Proof.
  induction a as [|x a IH]; simpl; [reflexivity | now rewrite IH].
Qed.

Lemma decode_escape_char (q c : ascii) (rest : string) :
  is_quote q ->
  decode_char q (escape_char q c ++ rest) = Some (c, rest).
Proof.
  intros [Hq | Hq]; subst q;
    destruct c as [[] [] [] [] [] [] [] []]; vm_compute; reflexivity.
Qed.

(** No character is written with the bare quote in front. *)
Lemma escape_char_not_quote (q c : ascii) (rest rest' : string) :
  is_quote q ->
  (escape_char q c ++ rest)%string <> String q rest'.
Proof.
  intros [Hq | Hq]; subst q;
    destruct c as [[] [] [] [] [] [] [] []]; vm_compute; discriminate.
Qed.

Lemma escape_prefix (q : ascii) (Hq : is_quote q) :
  forall (s s' rest rest' : string),
    (escape q s ++ String q rest)%string = (escape q s' ++ String q rest')%string ->
    s = s' /\ rest = rest'.
Proof.
  induction s as [|c s IH]; intros [|c' s'] rest rest' H; simpl in H.
  - now inversion H.
  - symmetry in H. rewrite string_app_assoc in H.
    now apply escape_char_not_quote in H.
  - rewrite string_app_assoc in H.
    now apply escape_char_not_quote in H.
  - rewrite !string_app_assoc in H.
    apply (f_equal (decode_char q)) in H.
    rewrite !decode_escape_char in H by assumption.
    inversion H; subst c'.
    destruct (IH s' rest rest') as [Hs Hr]; [assumption|].
    now subst.
Qed.

Lemma quote_of_is_quote (s : string) : is_quote (quote_of s).
Proof.
  unfold quote_of, is_quote.
  destruct (contains squote s && negb (contains dquote s)); auto.
Qed.

(** The text after a [repr] does not blur where it ends. *)
Lemma repr_str_prefix (s s' rest rest' : string) :
  (repr_str s ++ rest)%string = (repr_str s' ++ rest')%string ->
  s = s' /\ rest = rest'.
Proof.
  unfold repr_str. simpl. intros H.
  injection H as Hq H. rewrite Hq in H.
  rewrite !string_app_assoc in H. simpl in H.
  apply (escape_prefix (quote_of s') (quote_of_is_quote s')) in H.
  exact H.
Qed.

Lemma string_cons_inj (c : ascii) (s s' : string) :
  String c s = String c s' -> s = s'.
Proof.
  intros H. now inversion H.
Qed.

Lemma py_str_pair (a b : string) :
  py_str (PyTuple [PyStr a; PyStr b])
  = ("(" ++ repr_str a ++ ", " ++ repr_str b ++ ")")%string.
Proof.
  transitivity ("(" ++ ((repr_str a ++ ", " ++ repr_str b) ++ ")"))%string;
    [reflexivity|].
  now rewrite string_app_assoc.
Qed.

(** [str((a, b))] determines the two strings. *)
Lemma py_str_pair_inj (a b a' b' : string) :
  py_str (PyTuple [PyStr a; PyStr b]) = py_str (PyTuple [PyStr a'; PyStr b']) ->
  a = a' /\ b = b'.
Proof.
  rewrite !py_str_pair. cbn [append]. intros H.
  apply string_cons_inj in H.
  apply repr_str_prefix in H. destruct H as [Ha H].
  do 2 apply string_cons_inj in H.
  apply repr_str_prefix in H. destruct H as [Hb _].
  now split.
Qed.

(* ===================================================================== *)
(** ** Identity: [matches_key] *)
(* ===================================================================== *)

Lemma Ok_inj (A : Type) (x y : A) : Ok x = Ok y -> x = y.
Proof.
  intros H. now inversion H.
Qed.

(** A namespace that [get_grounding] returns under the default order is
    one of the five default labels, so it is truthy. *)
Lemma get_grounding_default_namespace (h : heap) (self : Concept) (ns : string) (db_id : pyval) :
  get_grounding h self None = Ok (PyStr ns, db_id) ->
  truthy (PyStr ns) = true.
Proof.
  unfold get_grounding. intros H.
  apply scan_namespace in H. destruct H as [[H _] | [n [Hn Hin]]]; [discriminate|].
  injection Hn as Hn. subst n. simpl in Hin.
  repeat (destruct Hin as [Hin | Hin]; [subst ns; reflexivity|]). destruct Hin.
Qed.

Lemma matches_key_grounded (h : heap) (self : Concept) (ns : string) (db_id : pyval) :
  get_grounding h self None = Ok (PyStr ns, db_id) ->
  matches_key h self = Ok (py_str (PyTuple [PyStr ns; db_id])).
Proof.
  intros H. unfold matches_key, entity_matches_key.
  rewrite H. cbn [obind].
  rewrite (get_grounding_default_namespace h self ns db_id H).
  reflexivity.
Qed.

Lemma matches_key_ungrounded (h : heap) (self : Concept) :
  get_grounding h self None = Ok (PyNone, PyNone) ->
  matches_key h self = Ok (name self).
Proof.
  intros H. unfold matches_key, entity_matches_key. now rewrite H.
Qed.

(** [str] of a string is the string: the two keys are the same. *)
Lemma matches_key_entity_matches_key (h : heap) (self : Concept) :
  matches_key h self = entity_matches_key h self.
Proof.
  unfold matches_key. now destruct (entity_matches_key h self).
Qed.

Lemma matches_entity_matches (h : heap) (self other : Concept) :
  matches h self other = entity_matches h self other.
Proof.
  unfold matches, entity_matches. now rewrite !matches_key_entity_matches_key.
Qed.

(** C4, as stated, fails: the first concept has no grounding and its
    name is the ten characters of a WM:x pair as Python prints it, the
    second concept is grounded to WM:x, and the two have the same
    [matches_key]. *)
Lemma matches_key_name_collides_with_grounding :
  let h := [[]; [("WM", PyStr "x")]] in
  let a := mkConcept "Concept" "('WM', 'x')" 0 in
  let b := mkConcept "Concept" "n" 1 in
  get_grounding h a None = Ok (PyNone, PyNone)
  /\ get_grounding h b None = Ok (PyStr "WM", PyStr "x")
  /\ matches_key h a = Ok "('WM', 'x')"
  /\ matches_key h b = Ok "('WM', 'x')"
  /\ matches h a b = Ok true.
Proof.
  cbv zeta. repeat split; reflexivity.
Qed.

(** C4, amended: among concepts grounded to string identifiers,
    [matches_key] is injective with respect to the resolved (namespace,
    identifier) pair; the key of an ungrounded concept is its bare name
    (which is how it can be spelled like the key of a grounded one). *)
Theorem matches_key_injective_on_groundings :
  forall (h : heap) (a b : Concept),
    (forall ns1 id1 ns2 id2 : string,
        get_grounding h a None = Ok (PyStr ns1, PyStr id1) ->
        get_grounding h b None = Ok (PyStr ns2, PyStr id2) ->
        (matches_key h a = matches_key h b <-> (ns1, id1) = (ns2, id2)))
    /\ (get_grounding h a None = Ok (PyNone, PyNone) ->
        matches_key h a = Ok (name a)).
Proof.
  intros h a b. split.
  - intros ns1 id1 ns2 id2 Ha Hb.
    rewrite (matches_key_grounded h a ns1 _ Ha).
    rewrite (matches_key_grounded h b ns2 _ Hb).
    split.
    + intros H. apply Ok_inj in H.
      apply py_str_pair_inj in H. destruct H as [Hns Hid]. now subst.
    + intros H. injection H as Hns Hid. now subst.
  - apply matches_key_ungrounded.
Qed.

Lemma matches_key_injective_on_groundings_witness :
  let h := [[("WM", PyStr "x")]; [("WM", PyStr "y"); ("UN", PyStr "x")]; []] in
  let a := mkConcept "Concept" "n" 0 in
  let b := mkConcept "Concept" "n" 1 in
  let c := mkConcept "Concept" "n" 2 in
  (matches_key h a = matches_key h b <-> ("WM", "x") = ("WM", "y"))
  /\ matches_key h c = Ok "n".
Proof.
  cbv zeta. split.
  - apply (proj1 (matches_key_injective_on_groundings
                    [[("WM", PyStr "x")]; [("WM", PyStr "y"); ("UN", PyStr "x")]; []]
                    (mkConcept "Concept" "n" 0) (mkConcept "Concept" "n" 1))
             "WM" "x" "WM" "y"); reflexivity.
  - apply (proj2 (matches_key_injective_on_groundings
                    [[("WM", PyStr "x")]; [("WM", PyStr "y"); ("UN", PyStr "x")]; []]
                    (mkConcept "Concept" "n" 2) (mkConcept "Concept" "n" 2))).
    reflexivity.
Defined.

(* ===================================================================== *)
(** ** Ontology relations *)
(* ===================================================================== *)




(** [if self.isa(other, ontology): return True] followed by
    [return False] gives what [isa] gives. *)
Lemma isa_then_bool (self other : Concept) (ontology : Ontology) (w : world) :
  bind (isa self other ontology) (fun r => if r then ret true else ret false) w
  = isa self other ontology w.
Proof.
  unfold bind. destruct (isa self other ontology w) as [[[|]|e] w']; reflexivity.
Qed.

(** C6: [refinement_of] is the cascade of the specification.  Concepts of
    different classes give [False]; otherwise a true [entities_refined]
    gives [True]; otherwise concepts that match give [True]; in these
    three cases the world, with the calls the ontology received, is left
    as it was.  Otherwise the result is that of [isa]. *)
Theorem refinement_of_cascade :
  forall (self other : Concept) (ontology : Ontology)
         (entities_refined : bool) (w : world),
    refinement_of self other ontology entities_refined w =
      if negb (cls self =? cls other)%string then (Ok false, w)
      else if entities_refined then (Ok true, w)
      else match matches (w_heap w) self other with
           | Ok true => (Ok true, w)
           | Ok false => isa self other ontology w
           | Raise e => (Raise e, w)
           end.
Proof.
  intros self other ontology entities_refined w.
  unfold refinement_of.
  destruct (negb (cls self =? cls other)%string); [reflexivity|].
  destruct entities_refined; [reflexivity|].
  rewrite matches_entity_matches.
  unfold bind at 1. unfold reading.
  destruct (entity_matches (w_heap w) self other) as [[|]|e]; try reflexivity.
  apply isa_then_bool.
Qed.

(* ===================================================================== *)
(** ** The heap and dictionaries *)
(* ===================================================================== *)

Lemma deref_heap_set_same (h : heap) (r : ref) (d : dict) :
  r < List.length h -> deref (heap_set h r d) r = d.
Proof.
  unfold deref. revert r. induction h as [|d' h IH]; intros [|r] Hr; simpl in *;
    try lia; [reflexivity|]. apply IH. lia.
Qed.

Lemma deref_heap_set_other (h : heap) (r r' : ref) (d : dict) :
  r <> r' -> deref (heap_set h r d) r' = deref h r'.
Proof.
  unfold deref. revert r r'.
  induction h as [|d' h IH]; intros [|r] [|r'] Hr; simpl; try reflexivity;
    try congruence.
  apply IH. congruence.
Qed.

Lemma heap_set_deref (h : heap) (r : ref) : heap_set h r (deref h r) = h.
Proof.
  unfold deref. revert r. induction h as [|d h IH]; intros [|r]; simpl;
    try reflexivity. now rewrite IH.
Qed.

Lemma heap_set_twice (h : heap) (r : ref) (d d' : dict) :
  heap_set (heap_set h r d) r d' = heap_set h r d'.
Proof.
  revert r. induction h as [|d0 h IH]; intros [|r]; simpl; try reflexivity.
  now rewrite IH.
Qed.

Lemma heap_set_length (h : heap) (r : ref) (d : dict) :
  List.length (heap_set h r d) = List.length h.
Proof.
  revert r. induction h as [|d0 h IH]; intros [|r]; simpl; try reflexivity.
  now rewrite IH.
Qed.

Lemma deref_valid (h : heap) (r : ref) : deref h r <> [] -> r < List.length h.
Proof.
  unfold deref. intros H. destruct (Nat.lt_ge_cases r (List.length h)) as [Hl|Hl];
    [assumption|].
  rewrite nth_overflow in H by assumption. now contradiction H.
Qed.

Lemma deref_alloc_old (h : heap) (r : ref) (d : dict) :
  r < List.length h -> deref (h ++ [d]) r = deref h r.
Proof.
  unfold deref. intros Hr. now rewrite app_nth1.
Qed.

Lemma deref_alloc_new (h : heap) (d : dict) :
  deref (h ++ [d]) (List.length h) = d.
Proof.
  unfold deref. rewrite app_nth2 by lia. now rewrite Nat.sub_diag.
Qed.

Lemma dict_set_mid (pre rest : dict) (k : string) (v v' : pyval) :
  ~ In k (map fst pre) ->
  dict_set (pre ++ (k, v) :: rest) k v' = pre ++ (k, v') :: rest.
Proof.
  induction pre as [|[k0 v0] pre IH]; simpl; intros Hk.
  - now rewrite String.eqb_refl.
  - destruct (String.eqb_spec k0 k) as [->|Hne].
    + exfalso. apply Hk. now left.
    + rewrite IH; [reflexivity|]. intros Hin. apply Hk. now right.
Qed.

(* ===================================================================== *)
(** ** Serialisation *)
(* ===================================================================== *)

Lemma omap_tuple_iterable (l : list pyval) :
  forallb is_iterable l = true -> exists l', omap tuple l = Ok l'.
Proof.
  induction l as [|x l IH]; simpl; intros H.
  - now exists [].
  - apply andb_true_iff in H. destruct H as [Hx Hl].
    destruct (IH Hl) as [l' Hl']. rewrite Hl'.
    destruct x; try discriminate; simpl; eexists; reflexivity.
Qed.

Lemma omap_tuple_tuples (l l' : list pyval) :
  omap tuple l = Ok l' -> forallb is_tuple l' = true.
Proof.
  revert l'. induction l as [|x l IH]; simpl; intros l' H.
  - injection H as <-. reflexivity.
  - destruct (tuple x) as [y|e] eqn:Hx; simpl in H; [|discriminate].
    destruct (omap tuple l) as [ys|e]; simpl in H; [|discriminate].
    injection H as <-. simpl. rewrite (IH ys eq_refl), andb_true_r.
    unfold tuple in Hx. destruct (iterate x); simpl in Hx; [|discriminate].
    now injection Hx as <-.
Qed.

(** [tuple] of a tuple is that tuple. *)
Lemma omap_tuple_fixed (l : list pyval) :
  forallb is_tuple l = true -> omap tuple l = Ok l.
Proof.
  induction l as [|x l IH]; simpl; intros H; [reflexivity|].
  apply andb_true_iff in H. destruct H as [Hx Hl].
  rewrite (IH Hl). destruct x; try discriminate. reflexivity.
Qed.

(** The loop of [_from_json] on the part [items] of the dictionary that is
    still to visit, [pre] being the part already visited. *)
Lemma fix_items_run (r : ref) :
  forall (items pre : dict) (w : world),
    deref (w_heap w) r = pre ++ items ->
    NoDup (map fst (pre ++ items)) ->
    (forall k l, In (k, PyList l) items -> forallb is_iterable l = true) ->
    fix_items r items w =
      (Ok tt, mkWorld (heap_set (w_heap w) r (pre ++ map fix_entry items))
                      (w_log w) (w_calls w)).
Proof.
  induction items as [|[k v] items IH]; intros pre w Hd Hnd Hit.
  - simpl. rewrite <- Hd, heap_set_deref. now destruct w.
  - assert (Hk : ~ In k (map fst pre)).
    { rewrite map_app in Hnd. simpl in Hnd.
      apply NoDup_remove_2 in Hnd. intros Hin. apply Hnd.
      apply in_or_app. now left. }
    assert (Hlater : forall k' l, In (k', PyList l) items ->
                                  forallb is_iterable l = true).
    { intros k' l Hin. apply (Hit k' l). now right. }
    assert (Hshape : forall v', pre ++ (k, v') :: items = (pre ++ [(k, v')]) ++ items).
    { intros v'. now rewrite <- app_assoc. }
    cbn [fix_items]. unfold bind at 1.
    destruct (is_list v) eqn:Hv.
    + destruct v as [| | |l|]; try discriminate.
      destruct (omap_tuple_iterable l (Hit k l (or_introl eq_refl))) as [l' Hl'].
      unfold bind at 1. unfold reading. cbn [iterate obind]. rewrite Hl'.
      unfold setitem. rewrite Hd, dict_set_mid by assumption.
      assert (Hr : r < List.length (w_heap w)).
      { apply deref_valid. rewrite Hd. now destruct pre. }
      rewrite (IH (pre ++ [(k, PyList l')])).
      * cbn [w_heap w_log w_calls]. rewrite heap_set_twice, <- app_assoc.
        cbn [map app]. unfold fix_entry at 2. cbn [fst snd fix_value].
        unfold tuples_of. rewrite Hl'. reflexivity.
      * cbn [w_heap]. rewrite deref_heap_set_same by assumption. apply Hshape.
      * rewrite <- Hshape. rewrite map_app in *. exact Hnd.
      * exact Hlater.
    + unfold ret. rewrite (IH (pre ++ [(k, v)])).
      * rewrite <- app_assoc. cbn [map app]. unfold fix_entry at 2.
        cbn [fst snd]. destruct v; try discriminate; reflexivity.
      * rewrite Hd. apply Hshape.
      * rewrite <- Hshape. exact Hnd.
      * exact Hlater.
Qed.

Lemma dict_wf_functional (d : dict) (k : string) (v v' : pyval) :
  dict_wf d -> In (k, v) d -> In (k, v') d -> v = v'.
Proof.
  unfold dict_wf. induction d as [|[k0 v0] d IH]; simpl; intros Hnd H1 H2.
  - destruct H1.
  - inversion Hnd as [|? ? Hnotin Hnd']; subst.
    destruct H1 as [H1|H1], H2 as [H2|H2].
    + congruence.
    + injection H1 as -> ->. exfalso. apply Hnotin.
      apply (in_map fst) in H2. exact H2.
    + injection H2 as -> ->. exfalso. apply Hnotin.
      apply (in_map fst) in H1. exact H1.
    + now apply IH.
Qed.

(** [from_record(to_record(c))] when the name is not empty, the dictionary
    is not empty and no [tuple(v)] raises: the concept that comes back
    holds the reference of [c], and the dictionary behind it has been
    rewritten. *)
Lemma round_trip_run (c : Concept) (w : world) :
  let d := deref (w_heap w) (db_refs c) in
  name c <> "" ->
  dict_wf d ->
  d <> [] ->
  (forall k l, In (k, PyList l) d -> forallb is_iterable l = true) ->
  round_trip c w =
    (Ok (Some (mkConcept "Concept" (name c) (db_refs c))),
     mkWorld (heap_set (w_heap w) (db_refs c) (map fix_entry d))
             (w_log w) (w_calls w)).
Proof.
  intros d Hname Hwf Hne Hit.
  unfold round_trip, to_json, _from_json, Concept_init, bind, ret, reading.
  cbn [j_name j_db_refs].
  destruct (name c) as [|a s] eqn:Hn; [now contradiction Hname|].
  fold d.
  rewrite (fix_items_run (db_refs c) d [] w eq_refl Hwf Hit).
  cbn [app w_heap].
  rewrite deref_heap_set_same by (now apply deref_valid).
  destruct (map fix_entry d) eqn:Hm.
  - destruct d; [now contradiction Hne | discriminate].
  - reflexivity.
Qed.

Lemma is_pair_is_tuple (l : list pyval) :
  forallb is_pair l = true -> forallb is_tuple l = true.
Proof.
  induction l as [|x l IH]; simpl; intros H; [reflexivity|].
  apply andb_true_iff in H. destruct H as [Hx Hl]. rewrite (IH Hl).
  destruct x; try discriminate. reflexivity.
Qed.

Lemma is_tuple_is_iterable (l : list pyval) :
  forallb is_tuple l = true -> forallb is_iterable l = true.
Proof.
  induction l as [|x l IH]; simpl; intros H; [reflexivity|].
  apply andb_true_iff in H. destruct H as [Hx Hl]. rewrite (IH Hl).
  destruct x; try discriminate. reflexivity.
Qed.

Lemma fix_value_stable (v : pyval) :
  scalar_or_pairs v = true -> fix_value v = v.
Proof.
  destruct v as [|s|t q|l|l]; simpl; intros H; try reflexivity.
  unfold tuples_of. now rewrite omap_tuple_fixed by now apply is_pair_is_tuple.
Qed.

Lemma fix_entry_stable (d : dict) :
  forallb (fun kv => scalar_or_pairs (snd kv)) d = true ->
  map fix_entry d = d.
Proof.
  induction d as [|[k v] d IH]; simpl; intros H; [reflexivity|].
  apply andb_true_iff in H. destruct H as [Hv Hd].
  unfold fix_entry at 1. simpl. now rewrite fix_value_stable, IH.
Qed.

Lemma forallb_In (A : Type) (f : A -> bool) (l : list A) (x : A) :
  forallb f l = true -> In x l -> f x = true.
Proof.
  intros H Hin. rewrite forallb_forall in H. now apply H.
Qed.

Lemma world_eta (w : world) : mkWorld (w_heap w) (w_log w) (w_calls w) = w.
Proof.
  now destruct w.
Qed.

(** C7, at a list of candidate strings: the record
    [{"name": "n", "db_refs": {"WM": ["ab", "c"]}}] does not pass through
    [_from_json] intact.  Every element goes through [tuple], the strings
    come out as tuples of their characters, and where [get_grounding] gave
    [("WM", "ab")] on the dictionary before, it raises on the dictionary
    after. *)
Theorem from_json_splits_candidate_strings :
  let before := [("WM", PyList [PyStr "ab"; PyStr "c"])] in
  let after := [("WM", PyList [PyTuple [PyStr "a"; PyStr "b"]; PyTuple [PyStr "c"]])] in
  let concept := mkConcept "Concept" "n" 0 in
  _from_json (mkJson (Some "n") (Some 0)) (mkWorld [before] [] [])
    = (Ok (Some concept), mkWorld [after] [] [])
  /\ get_grounding [before] concept None = Ok (PyStr "WM", PyStr "ab")
  /\ get_grounding [after] concept None = Raise IndexError.
Proof.
  cbv zeta. repeat split; reflexivity.
Qed.

(** Whatever the strings, each becomes the tuple of its characters. *)
Lemma fix_value_strings (ss : list string) :
  fix_value (PyList (map PyStr ss))
  = PyList (map (fun s => PyTuple (chars s)) ss).
Proof.
  unfold fix_value, tuples_of.
  assert (H : omap tuple (map PyStr ss)
              = Ok (map (fun s => PyTuple (chars s)) ss)).
  { induction ss as [|s ss IH]; simpl; [reflexivity|]. now rewrite IH. }
  now rewrite H.
Qed.

(** C8: for a concept with a non-empty name whose [db_refs] values are
    scalar strings or sequences of pairs, [from_record(to_record(c))]
    gives a concept with the name of [c] and a [db_refs] equal to that of
    [c], which itself is as it was. *)
Theorem round_trip_identity :
  forall (c : Concept) (w : world),
    let d := deref (w_heap w) (db_refs c) in
    name c <> "" ->
    dict_wf d ->
    forallb (fun kv => scalar_or_pairs (snd kv)) d = true ->
    exists (c' : Concept) (w' : world),
      round_trip c w = (Ok (Some c'), w')
      /\ name c' = name c
      /\ deref (w_heap w') (db_refs c') = d
      /\ deref (w_heap w') (db_refs c) = d.
Proof.
  intros c w. cbv zeta. intros Hname Hwf Hshape.
  destruct (deref (w_heap w) (db_refs c)) as [|kv d'] eqn:Hd.
  - exists (mkConcept "Concept" (name c) (List.length (w_heap w))).
    exists (mkWorld (w_heap w ++ [[]]) (w_log w) (w_calls w)).
    repeat split.
    + unfold round_trip, to_json, _from_json, Concept_init, bind, ret, reading.
      cbn [j_name j_db_refs].
      destruct (name c) as [|a s] eqn:Hn; [now contradiction Hname|].
      rewrite Hd. cbn [fix_items]. unfold ret. rewrite Hd.
      reflexivity.
    + cbn [w_heap db_refs]. apply deref_alloc_new.
    + cbn [w_heap]. unfold deref in *.
      destruct (Nat.lt_ge_cases (db_refs c) (List.length (w_heap w))) as [Hl|Hl].
      * rewrite app_nth1 by assumption. exact Hd.
      * destruct (Nat.eq_dec (db_refs c) (List.length (w_heap w))) as [He|He].
        -- rewrite He, app_nth2, Nat.sub_diag by lia. reflexivity.
        -- apply nth_overflow. rewrite length_app. simpl. lia.
  - exists (mkConcept "Concept" (name c) (db_refs c)).
    exists w.
    pose proof (round_trip_run c w Hname) as Hrun. cbv zeta in Hrun.
    rewrite Hd in Hrun. rewrite Hrun.
    + rewrite fix_entry_stable by assumption.
      rewrite <- Hd, heap_set_deref, world_eta.
      repeat split.
    + assumption.
    + discriminate.
    + intros k l Hin.
      apply is_tuple_is_iterable, is_pair_is_tuple.
      apply (forallb_In _ _ _ (k, PyList l) Hshape Hin).
Qed.

Lemma round_trip_identity_witness :
  let d := [("WM", PyList [PyTuple [PyStr "a"; PyFloat "0.3" (3 # 10)%Q];
                           PyTuple [PyStr "b"; PyFloat "0.9" (9 # 10)%Q]]);
            ("UN", PyStr "x")] in
  let c := mkConcept "Concept" "food" 0 in
  let w := mkWorld [d] [] [] in
  exists (c' : Concept) (w' : world),
    round_trip c w = (Ok (Some c'), w')
    /\ name c' = "food"
    /\ deref (w_heap w') (db_refs c') = d
    /\ deref (w_heap w') 0 = d.
Proof.
  cbv zeta.
  apply (round_trip_identity
           (mkConcept "Concept" "food" 0)
           (mkWorld [[("WM", PyList [PyTuple [PyStr "a"; PyFloat "0.3" (3 # 10)%Q];
                                     PyTuple [PyStr "b"; PyFloat "0.9" (9 # 10)%Q]]);
                      ("UN", PyStr "x")]] [] [])).
  - discriminate.
  - unfold dict_wf. simpl. repeat constructor; simpl; intuition discriminate.
  - reflexivity.
Defined.

(** C9: for a record whose name is missing or empty, [_from_json] returns
    [None] and does not raise; the failure goes to the logger as one error
    message, the dictionaries that existed are as they were, and the
    ontology is not called. *)
Theorem from_json_missing_name :
  forall (json_dict : json) (w : world),
    j_name json_dict = None \/ j_name json_dict = Some "" ->
    exists w' : world,
      _from_json json_dict w = (Ok None, w')
      /\ w_log w' = w_log w ++ ["Concept missing name."]
      /\ w_calls w' = w_calls w
      /\ (forall r, r < List.length (w_heap w) ->
                    deref (w_heap w') r = deref (w_heap w) r).
Proof.
  intros [n [r|]] w Hname; cbn [j_name] in Hname;
    unfold _from_json, bind, ret, alloc, logger_error; cbn [j_name j_db_refs];
    destruct Hname as [-> | ->]; eexists; repeat split;
    cbn [w_heap]; intros; now apply deref_alloc_old.
Qed.

Lemma from_json_missing_name_witness :
  exists w' : world,
    _from_json (mkJson (Some "") (Some 0))
               (mkWorld [[("WM", PyList [PyList [PyStr "a"]])]] [] [])
      = (Ok None, w')
    /\ w_log w' = ["Concept missing name."]
    /\ w_calls w' = []
    /\ (forall r, r < 1 -> deref (w_heap w') r
                           = deref [[("WM", PyList [PyList [PyStr "a"]])]] r).
Proof.
  apply (from_json_missing_name
           (mkJson (Some "") (Some 0))
           (mkWorld [[("WM", PyList [PyList [PyStr "a"]])]] [] [])).
  right. reflexivity.
Defined.

(** C10, as stated, fails.  The first concept has a list-valued entry
    whose element is a list, and an empty name:
    [from_record(to_record(c))] returns [None] and the dictionary of the
    concept is as it was.  The second has a name and a list-valued entry
    whose element cannot be iterated: [tuple(v)] raises before anything
    is written, and the dictionary is as it was. *)
Lemma round_trip_empty_name_no_rewrite :
  let d := [("WM", PyList [PyList [PyStr "a"; PyFloat "0.3" (3 # 10)%Q]])] in
  let c := mkConcept "Concept" "" 0 in
  let w := mkWorld [d] [] [] in
  let d2 := [("WM", PyList [PyFloat "0.5" (1 # 2)%Q])] in
  let c2 := mkConcept "Concept" "n" 0 in
  let w2 := mkWorld [d2] [] [] in
  (list_entry (deref (w_heap w) (db_refs c)) "WM"
              [PyList [PyStr "a"; PyFloat "0.3" (3 # 10)%Q]]
   /\ round_trip c w = (Ok None, mkWorld [d] ["Concept missing name."] [])
   /\ deref (w_heap (snd (round_trip c w))) (db_refs c) = d)
  /\ (list_entry (deref (w_heap w2) (db_refs c2)) "WM" [PyFloat "0.5" (1 # 2)%Q]
      /\ round_trip c2 w2 = (Raise TypeError, w2)
      /\ deref (w_heap (snd (round_trip c2 w2))) (db_refs c2) = d2).
Proof.
  cbv zeta. repeat split; try reflexivity; left; reflexivity.
Qed.

(** C10, amended: [to_json] puts the reference held by the concept into
    the record, and allocates nothing.  For a concept with a non-empty
    name and a list-valued entry, whose lists hold only strings, lists and
    tuples, [from_record(to_record(c))] returns a concept holding that
    same reference and has rewritten the dictionary of [c] in place: every
    list [l] under a key is now the list of [tuple(v)] for [v] in [l], all
    of them tuples, and the dictionary differs from what it was as soon as
    one element of [l] was not a tuple. *)
Theorem round_trip_rewrites_own_db_refs :
  forall (c : Concept) (w : world) (k : string) (l : list pyval),
    let d := deref (w_heap w) (db_refs c) in
    name c <> "" ->
    dict_wf d ->
    list_entry d k l ->
    (forall k' l', list_entry d k' l' -> forallb is_iterable l' = true) ->
    to_json c w = (Ok (mkJson (Some (name c)) (Some (db_refs c))), w)
    /\ exists w' : world,
        round_trip c w
          = (Ok (Some (mkConcept "Concept" (name c) (db_refs c))), w')
        /\ deref (w_heap w') (db_refs c) = map fix_entry d
        /\ (exists l', omap tuple l = Ok l'
                       /\ list_entry (deref (w_heap w') (db_refs c)) k l'
                       /\ forallb is_tuple l' = true)
        /\ (forallb is_tuple l = false -> deref (w_heap w') (db_refs c) <> d).
Proof.
  intros c w k l d Hname Hwf Hin Hit. split; [reflexivity|].
  assert (Hne : d <> []) by (intros He; unfold list_entry in Hin; now rewrite He in Hin).
  assert (Hvalid : db_refs c < List.length (w_heap w)) by now apply deref_valid.
  destruct (omap_tuple_iterable l (Hit k l Hin)) as [l' Hl'].
  assert (Hafter : list_entry (map fix_entry d) k l').
  { unfold list_entry in *. apply (in_map fix_entry) in Hin.
    unfold fix_entry at 1 in Hin. cbn [fst snd fix_value] in Hin.
    unfold tuples_of in Hin. now rewrite Hl' in Hin. }
  eexists. split; [apply (round_trip_run c w Hname Hwf Hne Hit)|].
  cbn [w_heap]. rewrite deref_heap_set_same by assumption. fold d.
  split; [reflexivity|]. split.
  - exists l'. split; [assumption|]. split; [assumption|].
    now apply (omap_tuple_tuples l).
  - intros Hnot Hsame. rewrite Hsame in Hafter.
    assert (Heq : PyList l' = PyList l)
      by (apply (dict_wf_functional d k); assumption).
    injection Heq as ->.
    apply omap_tuple_tuples in Hl'. congruence.
Qed.

Lemma round_trip_rewrites_own_db_refs_witness :
  let d := [("UN", PyStr "x");
            ("WM", PyList [PyList [PyStr "a"; PyFloat "0.3" (3 # 10)%Q]])] in
  let c := mkConcept "Concept" "food" 0 in
  let w := mkWorld [d] [] [] in
  to_json c w = (Ok (mkJson (Some "food") (Some 0)), w)
  /\ exists w' : world,
      round_trip c w = (Ok (Some c), w')
      /\ deref (w_heap w') 0 = map fix_entry d
      /\ (exists l', omap tuple [PyList [PyStr "a"; PyFloat "0.3" (3 # 10)%Q]] = Ok l'
                     /\ list_entry (deref (w_heap w') 0) "WM" l'
                     /\ forallb is_tuple l' = true)
      /\ (forallb is_tuple [PyList [PyStr "a"; PyFloat "0.3" (3 # 10)%Q]] = false ->
          deref (w_heap w') 0 <> d).
Proof.
  cbv zeta.
  apply (round_trip_rewrites_own_db_refs
           (mkConcept "Concept" "food" 0)
           (mkWorld [[("UN", PyStr "x");
                      ("WM", PyList [PyList [PyStr "a"; PyFloat "0.3" (3 # 10)%Q]])]] [] [])
           "WM" [PyList [PyStr "a"; PyFloat "0.3" (3 # 10)%Q]]).
  - discriminate.
  - unfold dict_wf. simpl. repeat constructor; simpl; intuition discriminate.
  - right. left. reflexivity.
  - intros k' l' [H | [H | []]]; [discriminate|].
    injection H as _ <-. reflexivity.
Defined.

(* ===================================================================== *)
(** ** More on grounding resolution *)
(* ===================================================================== *)

Lemma scan_sound (d : dict) (order : list string) (db_ns db_id : pyval) :
  scan d order = Ok (db_ns, db_id) ->
  (db_ns = PyNone /\ db_id = PyNone
   /\ forall n, In n order -> truthy (dict_get d n) = false)
  \/ (exists pre ns post,
        order = pre ++ ns :: post
        /\ (forall n, In n pre -> truthy (dict_get d n) = false)
        /\ truthy (dict_get d ns) = true
        /\ db_ns = PyStr ns
        /\ pick_id (dict_get d ns) = Ok db_id).
Proof.
  induction order as [|n order IH]; simpl; intros H.
  - left. inversion H. repeat split. intros n [].
  - destruct (truthy (dict_get d n)) eqn:Hn; simpl in H.
    + destruct (pick_id (dict_get d n)) as [i|e] eqn:Hp; simpl in H; [|discriminate].
      inversion H; subst. right. exists [], n, order.
      repeat split; try assumption. intros m [].
    + destruct (IH H) as [[H1 [H2 H3]] | [pre [ns [post [Ho [Hpre [Hns [Hd Hp]]]]]]]].
      * left. repeat split; try assumption.
        intros m [<- | Hm]; [assumption | now apply H3].
      * right. exists (n :: pre), ns, post. subst order.
        repeat split; try assumption.
        intros m [<- | Hm]; [assumption | now apply Hpre].
Qed.

(** X1: whatever [get_grounding] returns is accounted for by the scan:
    either [(None, None)], and then no namespace of the order has a truthy
    entry, or a namespace of the order whose entry is truthy, every
    namespace before it having none, with the identifier picked from that
    entry.  A namespace outside the order is never returned. *)
Theorem get_grounding_sound :
  forall (h : heap) (self : Concept) (ns_order : option (list string))
         (db_ns db_id : pyval),
    let d := deref h (db_refs self) in
    let order := effective_order ns_order in
    get_grounding h self ns_order = Ok (db_ns, db_id) ->
    (db_ns = PyNone /\ db_id = PyNone
     /\ forall n, In n order -> truthy (dict_get d n) = false)
    \/ (exists pre ns post,
          order = pre ++ ns :: post
          /\ (forall n, In n pre -> truthy (dict_get d n) = false)
          /\ truthy (dict_get d ns) = true
          /\ db_ns = PyStr ns
          /\ pick_id (dict_get d ns) = Ok db_id).
Proof.
  intros h self ns_order db_ns db_id d order. unfold get_grounding.
  apply scan_sound.
Qed.

Lemma get_grounding_sound_witness :
  let h := [[("TEXT", PyStr "t"); ("UN", PyList [PyStr "u"; PyStr "v"])]] in
  let d := deref h 0 in
  (PyStr "UN" = PyNone /\ PyStr "u" = PyNone
   /\ forall n, In n default_ns_order -> truthy (dict_get d n) = false)
  \/ (exists pre ns post,
        default_ns_order = pre ++ ns :: post
        /\ (forall n, In n pre -> truthy (dict_get d n) = false)
        /\ truthy (dict_get d ns) = true
        /\ PyStr "UN" = PyStr ns
        /\ pick_id (dict_get d ns) = Ok (PyStr "u")).
Proof.
  apply (get_grounding_sound
           [[("TEXT", PyStr "t"); ("UN", PyList [PyStr "u"; PyStr "v"])]]
           (mkConcept "Concept" "n" 0) None (PyStr "UN") (PyStr "u")).
  reflexivity.
Defined.

Lemma fold_better_member (l : list scored) (acc : option scored) (b : scored) :
  fold_left better l acc = Some b -> In b l \/ acc = Some b.
Proof.
  revert acc. induction l as [|x l IH]; simpl; intros acc H; [now right|].
  destruct (IH _ H) as [Hin | Hacc]; [left; now right|].
  destruct acc as [a|]; simpl in Hacc.
  - destruct (lower a x); [left; left; congruence | now right].
  - left. left. congruence.
Qed.

Lemma fold_better_keeps (l : list scored) (m : scored) :
  (forall p, In p l -> (s_score p <= s_score m)%Q) ->
  fold_left better l (Some m) = Some m.
Proof.
  induction l as [|x l IH]; simpl; intros H; [reflexivity|].
  assert (Hx : lower m x = false) by (apply lower_ge, H; now left).
  rewrite Hx. apply IH. intros p Hp. apply H. now right.
Qed.

Lemma top_scored_at (before : list scored) (m : scored) (after : list scored) :
  (forall p, In p before -> (s_score p < s_score m)%Q) ->
  (forall p, In p after -> (s_score p <= s_score m)%Q) ->
  top_scored (before ++ m :: after) = Some m.
Proof.
  intros Hb Ha. unfold top_scored. rewrite fold_left_app. simpl.
  destruct (fold_left better before None) as [b|] eqn:E; simpl.
  - destruct (fold_better_member _ _ _ E) as [Hin | Hn]; [|discriminate].
    assert (Hl : lower b m = true) by (apply lower_lt, Hb, Hin).
    rewrite Hl. now apply fold_better_keeps.
  - now apply fold_better_keeps.
Qed.

(** X2: when the entry of the first namespace with a truthy entry is a
    list whose first element is itself a list of (identifier, score)
    pairs, [get_grounding] returns the identifier of the pair with the
    highest score, and among pairs of equal score the one that comes
    first: every pair before it has a strictly lower score, every pair
    after it a score that is not higher.  The other elements of the entry
    play no part. *)
Theorem get_grounding_nested_top_score :
  forall (h : heap) (self : Concept) (ns_order : option (list string))
         (pre : list string) (ns : string) (post : list string)
         (before : list scored) (m : scored) (after : list scored)
         (others : list pyval),
    let d := deref h (db_refs self) in
    effective_order ns_order = pre ++ ns :: post ->
    (forall n, In n pre -> truthy (dict_get d n) = false) ->
    dict_get d ns = PyList (PyList (map scored_pair (before ++ m :: after)) :: others) ->
    (forall p, In p before -> (s_score p < s_score m)%Q) ->
    (forall p, In p after -> (s_score p <= s_score m)%Q) ->
    get_grounding h self ns_order = Ok (PyStr ns, PyStr (s_id m)).
Proof.
  intros h self ns_order pre ns post before m after others d Ho Hpre Hd Hb Ha.
  unfold get_grounding. fold d. rewrite Ho.
  rewrite scan_first_truthy; [|assumption | now rewrite Hd].
  rewrite Hd, pick_id_nested_scored, top_scored_at by assumption.
  reflexivity.
Qed.

Lemma get_grounding_nested_top_score_witness :
  get_grounding
    [[("WM", PyList [PyList (map scored_pair
                               [mkScored "a" "0.3" (3 # 10)%Q;
                                mkScored "b" "0.9" (9 # 10)%Q;
                                mkScored "c" "0.9" (9 # 10)%Q;
                                mkScored "d" "0.1" (1 # 10)%Q]);
                     PyStr "ignored"])]]
    (mkConcept "Concept" "n" 0) None
  = Ok (PyStr "WM", PyStr "b").
Proof.
  apply (get_grounding_nested_top_score
           [[("WM", PyList [PyList (map scored_pair
                               [mkScored "a" "0.3" (3 # 10)%Q;
                                mkScored "b" "0.9" (9 # 10)%Q;
                                mkScored "c" "0.9" (9 # 10)%Q;
                                mkScored "d" "0.1" (1 # 10)%Q]);
                            PyStr "ignored"])]]
           (mkConcept "Concept" "n" 0) None
           [] "WM" ["UN"; "HUME"; "SOFIA"; "CWMS"]
           [mkScored "a" "0.3" (3 # 10)%Q]
           (mkScored "b" "0.9" (9 # 10)%Q)
           [mkScored "c" "0.9" (9 # 10)%Q; mkScored "d" "0.1" (1 # 10)%Q]
           [PyStr "ignored"]).
  - reflexivity.
  - intros n [].
  - reflexivity.
  - intros p [<- | []]. reflexivity.
  - intros p [<- | [<- | []]]; discriminate.
Defined.

(** X3: a flat sequence of (identifier, score) pairs under the first
    namespace with a truthy entry makes [get_grounding] raise, whatever
    the pairs after the first: [IndexError] when the first identifier has
    fewer than two characters, [TypeError] otherwise. *)
Theorem get_grounding_flat_pairs_raise :
  forall (h : heap) (self : Concept) (ns_order : option (list string))
         (pre : list string) (ns : string) (post : list string)
         (i text : string) (q : Q) (rest : list pyval),
    let d := deref h (db_refs self) in
    let pairs := PyTuple [PyStr i; PyFloat text q] :: rest in
    effective_order ns_order = pre ++ ns :: post ->
    (forall n, In n pre -> truthy (dict_get d n) = false) ->
    dict_get d ns = PyList pairs \/ dict_get d ns = PyTuple pairs ->
    get_grounding h self ns_order =
      Raise (if (String.length i <? 2)%nat then IndexError else TypeError).
Proof.
  intros h self ns_order pre ns post i text q rest. cbv zeta.
  intros Ho Hpre Hd.
  unfold get_grounding. rewrite Ho.
  destruct (pick_id_flat_pairs i text q rest) as [Hl Ht].
  rewrite scan_first_truthy;
    [|assumption | destruct Hd as [-> | ->]; reflexivity].
  destruct Hd as [-> | ->]; [rewrite Hl | rewrite Ht]; reflexivity.
Qed.

Lemma get_grounding_flat_pairs_raise_witness :
  get_grounding
    [[("UN", PyTuple [PyTuple [PyStr "food"; PyFloat "0.5" (1 # 2)%Q]])]]
    (mkConcept "Concept" "n" 0) None
  = Raise TypeError.
Proof.
  apply (get_grounding_flat_pairs_raise
           [[("UN", PyTuple [PyTuple [PyStr "food"; PyFloat "0.5" (1 # 2)%Q]])]]
           (mkConcept "Concept" "n" 0) None
           ["WM"] "UN" ["HUME"; "SOFIA"; "CWMS"] "food" "0.5" (1 # 2)%Q []).
  - reflexivity.
  - intros n [<- | []]. reflexivity.
  - right. reflexivity.
Defined.

(* ===================================================================== *)
(** ** More on identity *)
(* ===================================================================== *)

(** X4: on concepts whose key can be computed, [matches] is an
    equivalence: every concept matches itself, the order of the two
    concepts does not matter, and matching carries over a common third
    concept. *)
Theorem matches_equivalence :
  forall (h : heap) (a b c : Concept) (ka kb kc : string),
    matches_key h a = Ok ka ->
    matches_key h b = Ok kb ->
    matches_key h c = Ok kc ->
    matches h a a = Ok true
    /\ matches h a b = matches h b a
    /\ (matches h a b = Ok true -> matches h b c = Ok true ->
        matches h a c = Ok true).
Proof.
  intros h a b c ka kb kc Ha Hb Hc. unfold matches.
  rewrite Ha, Hb, Hc. cbn [obind]. repeat split.
  - now rewrite String.eqb_refl.
  - now rewrite String.eqb_sym.
  - intros Hab Hbc. apply Ok_inj in Hab, Hbc.
    apply String.eqb_eq in Hab, Hbc. subst. now rewrite String.eqb_refl.
Qed.

Lemma matches_equivalence_witness :
  let h := [[("WM", PyStr "x")]; [("WM", PyList [PyStr "x"; PyStr "y"])]; []] in
  let a := mkConcept "Concept" "a" 0 in
  let b := mkConcept "Concept" "b" 1 in
  let c := mkConcept "Concept" "('WM', 'x')" 2 in
  matches h a a = Ok true
  /\ matches h a b = matches h b a
  /\ (matches h a b = Ok true -> matches h b c = Ok true ->
      matches h a c = Ok true).
Proof.
  cbv zeta.
  apply (matches_equivalence
           [[("WM", PyStr "x")]; [("WM", PyList [PyStr "x"; PyStr "y"])]; []]
           (mkConcept "Concept" "a" 0) (mkConcept "Concept" "b" 1)
           (mkConcept "Concept" "('WM', 'x')" 2)
           "('WM', 'x')" "('WM', 'x')" "('WM', 'x')"); reflexivity.
Defined.

(** X5: the name counts only for concepts without a grounding.  Two
    concepts that resolve to the same namespace and identifier match
    whatever their names are; two concepts that both resolve to
    [(None, None)] match exactly when their names are equal. *)
Theorem matches_name_only_when_ungrounded :
  forall (h : heap) (a b : Concept),
    (forall (ns : string) (db_id : pyval),
        get_grounding h a None = Ok (PyStr ns, db_id) ->
        get_grounding h b None = Ok (PyStr ns, db_id) ->
        matches h a b = Ok true)
    /\ (get_grounding h a None = Ok (PyNone, PyNone) ->
        get_grounding h b None = Ok (PyNone, PyNone) ->
        matches h a b = Ok (name a =? name b)).
Proof.
  intros h a b. split.
  - intros ns db_id Ha Hb. unfold matches.
    rewrite (matches_key_grounded h a ns db_id Ha).
    rewrite (matches_key_grounded h b ns db_id Hb).
    cbn [obind]. now rewrite String.eqb_refl.
  - intros Ha Hb. unfold matches.
    rewrite (matches_key_ungrounded h a Ha), (matches_key_ungrounded h b Hb).
    reflexivity.
Qed.

Lemma matches_name_only_when_ungrounded_witness :
  let h := [[("WM", PyStr "x")]; [("WM", PyList [PyStr "x"]); ("UN", PyStr "z")];
            [("TEXT", PyStr "rain")]; []] in
  matches h (mkConcept "Concept" "rain" 0) (mkConcept "Concept" "flood" 1) = Ok true
  /\ matches h (mkConcept "Concept" "rain" 2) (mkConcept "Concept" "flood" 3)
     = Ok ("rain" =? "flood").
Proof.
  cbv zeta. split.
  - apply (proj1 (matches_name_only_when_ungrounded
                    [[("WM", PyStr "x")]; [("WM", PyList [PyStr "x"]); ("UN", PyStr "z")];
                     [("TEXT", PyStr "rain")]; []]
                    (mkConcept "Concept" "rain" 0) (mkConcept "Concept" "flood" 1))
             "WM" (PyStr "x")); reflexivity.
  - apply (proj2 (matches_name_only_when_ungrounded
                    [[("WM", PyStr "x")]; [("WM", PyList [PyStr "x"]); ("UN", PyStr "z")];
                     [("TEXT", PyStr "rain")]; []]
                    (mkConcept "Concept" "rain" 2) (mkConcept "Concept" "flood" 3)));
      reflexivity.
Defined.

(** Induction on values, with the elements of a list or tuple covered. *)
Lemma pyval_forall_ind (P : pyval -> Prop) :
  P PyNone ->
  (forall s, P (PyStr s)) ->
  (forall t q, P (PyFloat t q)) ->
  (forall l, Forall P l -> P (PyList l)) ->
  (forall l, Forall P l -> P (PyTuple l)) ->
  forall v, P v.
Proof.
  intros HN HS HF HL HT.
  fix IH 1. intros [|s|t q|l|l].
  - exact HN.
  - apply HS.
  - apply HF.
  - apply HL. induction l as [|x l IHl]; constructor; [apply IH | exact IHl].
  - apply HT. induction l as [|x l IHl]; constructor; [apply IH | exact IHl].
Qed.

Lemma py_eq_list (l1 l2 : list pyval) :
  py_eq (PyList l1) (PyList l2) = py_eq (PyTuple l1) (PyTuple l2).
Proof.
  reflexivity.
Qed.

Lemma py_eq_cons (x y : pyval) (l1 l2 : list pyval) :
  py_eq (PyList (x :: l1)) (PyList (y :: l2))
  = py_eq x y && py_eq (PyList l1) (PyList l2).
Proof.
  reflexivity.
Qed.

Lemma py_eq_refl (v : pyval) : py_eq v v = true.
Proof.
  induction v as [|s|t q|l IH|l IH] using pyval_forall_ind.
  - reflexivity.
  - apply String.eqb_refl.
  - apply Qeq_bool_refl.
  - induction IH as [|x l Hx _ IHl]; [reflexivity|].
    rewrite py_eq_cons, Hx. exact IHl.
  - rewrite <- py_eq_list.
    induction IH as [|x l Hx _ IHl]; [reflexivity|].
    rewrite py_eq_cons, Hx. exact IHl.
Qed.

Lemma py_eq_sym (v v' : pyval) : py_eq v v' = py_eq v' v.
Proof.
  revert v'.
  induction v as [|s|t q|l IH|l IH] using pyval_forall_ind; intros v'.
  - now destruct v'.
  - destruct v'; try reflexivity. apply String.eqb_sym.
  - destruct v'; try reflexivity. apply Qeq_bool_comm.
  - destruct v' as [| | |l'|]; try reflexivity.
    revert l'. induction IH as [|x l Hx _ IHl]; intros [|y l']; try reflexivity.
    now rewrite !py_eq_cons, Hx, IHl.
  - destruct v' as [| | | |l']; try reflexivity.
    rewrite <- !py_eq_list.
    revert l'. induction IH as [|x l Hx _ IHl]; intros [|y l']; try reflexivity.
    now rewrite !py_eq_cons, Hx, IHl.
Qed.

Lemma dict_has_keys (d : dict) (k : string) :
  dict_has d k = true <-> In k (map fst d).
Proof.
  unfold dict_has. rewrite existsb_exists, in_map_iff. split.
  - intros [kv [Hin Hk]]. apply String.eqb_eq in Hk. now exists kv.
  - intros [kv [Hk Hin]]. exists kv. split; [assumption|].
    now apply String.eqb_eq.
Qed.

Lemma dict_get_in (d : dict) (k : string) (v : pyval) :
  dict_wf d -> In (k, v) d -> dict_get d k = v.
Proof.
  unfold dict_wf. induction d as [|[k0 v0] d IH]; simpl; intros Hnd Hin.
  - destruct Hin.
  - inversion Hnd as [|? ? Hnotin Hnd']; subst.
    destruct Hin as [Heq | Hin].
    + injection Heq as -> ->. now rewrite String.eqb_refl.
    + destruct (String.eqb_spec k0 k) as [->|Hne]; [|now apply IH].
      exfalso. apply Hnotin. apply (in_map fst) in Hin. exact Hin.
Qed.

Lemma dict_eq_spec (d1 d2 : dict) :
  dict_wf d2 ->
  (dict_eq d1 d2 = true <->
   List.length d1 = List.length d2
   /\ forall k v, In (k, v) d1 ->
                  exists v', In (k, v') d2 /\ py_eq v v' = true).
Proof.
  intros Hwf. unfold dict_eq.
  rewrite andb_true_iff, Nat.eqb_eq, forallb_forall. split.
  - intros [Hlen Hall]. split; [assumption|]. intros k v Hin.
    specialize (Hall (k, v) Hin). cbn [fst snd] in Hall.
    apply andb_true_iff in Hall. destruct Hall as [Hhas Heq].
    apply dict_has_keys, in_map_iff in Hhas.
    destruct Hhas as [[k' v'] [Hk Hin']]. cbn [fst] in Hk. subst k'.
    exists v'. split; [assumption|].
    now rewrite (dict_get_in d2 k v' Hwf Hin') in Heq.
  - intros [Hlen Hall]. split; [assumption|]. intros [k v] Hin.
    destruct (Hall k v Hin) as [v' [Hin' Heq]]. cbn [fst snd].
    apply andb_true_iff. split.
    + apply dict_has_keys. apply (in_map fst) in Hin'. exact Hin'.
    + now rewrite (dict_get_in d2 k v' Hwf Hin').
Qed.

Lemma dict_eq_sym_true (d1 d2 : dict) :
  dict_wf d1 -> dict_wf d2 -> dict_eq d1 d2 = true -> dict_eq d2 d1 = true.
Proof.
  intros Hwf1 Hwf2 H. apply (dict_eq_spec d1 d2 Hwf2) in H.
  destruct H as [Hlen Hall]. apply (dict_eq_spec d2 d1 Hwf1).
  split; [now symmetry|]. intros k v Hin.
  assert (Hincl : incl (map fst d1) (map fst d2)).
  { intros k1 Hk1. apply in_map_iff in Hk1. destruct Hk1 as [[k' v1] [<- Hin1]].
    destruct (Hall k' v1 Hin1) as [v' [Hin' _]].
    apply (in_map fst) in Hin'. exact Hin'. }
  assert (Hback : incl (map fst d2) (map fst d1)).
  { apply NoDup_length_incl; [exact Hwf1 | | exact Hincl].
    rewrite !length_map. lia. }
  assert (Hk : In k (map fst d1)) by (apply Hback; apply (in_map fst) in Hin; exact Hin).
  apply in_map_iff in Hk. destruct Hk as [[k' v1] [Hk' Hin1]].
  cbn [fst] in Hk'. subst k'.
  exists v1. split; [assumption|].
  destruct (Hall k v1 Hin1) as [v' [Hin' Heq]].
  rewrite (dict_wf_functional d2 k v v' Hwf2 Hin Hin').
  now rewrite py_eq_sym.
Qed.

Lemma dict_eq_permutation (d1 d2 : dict) :
  dict_wf d1 -> Permutation d1 d2 -> dict_eq d1 d2 = true.
Proof.
  intros Hwf Hperm.
  assert (Hwf2 : dict_wf d2).
  { unfold dict_wf in *. apply (Permutation_NoDup (l := map fst d1));
      [now apply Permutation_map | assumption]. }
  apply (dict_eq_spec d1 d2 Hwf2). split.
  - now apply Permutation_length.
  - intros k v Hin. exists v. split; [|apply py_eq_refl].
    now apply (Permutation_in _ Hperm).
Qed.

(** X6: [equals] on concepts whose dictionaries have unique keys is
    reflexive and symmetric, and it does not look at the order in which
    the keys were inserted: concepts with the same name whose [db_refs]
    hold the same entries in another order are equal. *)
Theorem equals_reflexive_symmetric :
  forall (h : heap) (a b : Concept),
    let da := deref h (db_refs a) in
    let db := deref h (db_refs b) in
    dict_wf da ->
    dict_wf db ->
    equals h a a = true
    /\ equals h a b = equals h b a
    /\ (name a = name b -> Permutation da db -> equals h a b = true).
Proof.
  intros h a b da db Ha Hb. unfold equals. fold da. fold db. repeat split.
  - rewrite String.eqb_refl. apply dict_eq_permutation; [assumption|].
    apply Permutation_refl.
  - rewrite (String.eqb_sym (name b)). f_equal.
    destruct (dict_eq da db) eqn:E1, (dict_eq db da) eqn:E2; try reflexivity.
    + apply dict_eq_sym_true in E1; try assumption. congruence.
    + apply dict_eq_sym_true in E2; try assumption. congruence.
  - intros Hn Hp. rewrite Hn, String.eqb_refl.
    now apply dict_eq_permutation.
Qed.

Lemma equals_reflexive_symmetric_witness :
  let h := [[("WM", PyStr "x"); ("UN", PyList [PyStr "y"])];
            [("UN", PyList [PyStr "y"]); ("WM", PyStr "x")]] in
  let a := mkConcept "Concept" "rain" 0 in
  let b := mkConcept "Concept" "rain" 1 in
  equals h a a = true
  /\ equals h a b = equals h b a
  /\ (name a = name b -> Permutation (deref h 0) (deref h 1) -> equals h a b = true).
Proof.
  cbv zeta.
  apply (equals_reflexive_symmetric
           [[("WM", PyStr "x"); ("UN", PyList [PyStr "y"])];
            [("UN", PyList [PyStr "y"]); ("WM", PyStr "x")]]
           (mkConcept "Concept" "rain" 0) (mkConcept "Concept" "rain" 1));
    unfold dict_wf; simpl; repeat constructor; simpl; intuition discriminate.
Defined.

(* ===================================================================== *)
(** ** More on the ontology relations *)
(* ===================================================================== *)

Ltac frame_done :=
  cbn; unfold at_most_one_call; repeat split;
  first [ reflexivity | now left
        | right; eexists; split; cycle 1; [reflexivity | exact I] ].

Lemma isa_frame (self other : Concept) (ontology : Ontology) (w : world) :
  let w' := snd (isa self other ontology w) in
  w_heap w' = w_heap w /\ w_log w' = w_log w
  /\ at_most_one_call is_isa_call (w_calls w) (w_calls w').
Proof.
  unfold isa, bind, reading.
  destruct (get_grounding (w_heap w) self None) as [[ns1 id1]|e];
    [|frame_done].
  destruct (get_grounding (w_heap w) other None) as [[ns2 id2]|e];
    [|frame_done].
  destruct (forallb truthy [ns1; id1; ns2; id2]); frame_done.
Qed.

Lemma refinement_of_run (self other : Concept) (ontology : Ontology)
      (entities_refined : bool) (w : world) :
  refinement_of self other ontology entities_refined w =
    if negb (cls self =? cls other)%string then (Ok false, w)
    else if entities_refined then (Ok true, w)
    else match entity_matches (w_heap w) self other with
         | Ok true => (Ok true, w)
         | Ok false => isa self other ontology w
         | Raise e => (Raise e, w)
         end.
Proof.
  unfold refinement_of.
  destruct (negb (cls self =? cls other)%string); [reflexivity|].
  destruct entities_refined; [reflexivity|].
  unfold bind at 1. unfold reading.
  destruct (entity_matches (w_heap w) self other) as [[|]|e]; try reflexivity.
  apply isa_then_bool.
Qed.

(** X7: whatever the concepts, the ontology and the outcome, an exception
    included, [isa], [is_opposite] and [refinement_of] leave the heap and
    the log as they were and call the ontology at most once; [isa] and
    [refinement_of] only ever call [ontology.isa], [is_opposite] only
    ever calls [ontology.is_opposite]. *)
Theorem relations_call_ontology_at_most_once :
  forall (self other : Concept) (ontology : Ontology)
         (entities_refined : bool) (w : world),
    let w1 := snd (isa self other ontology w) in
    let w2 := snd (is_opposite self other ontology w) in
    let w3 := snd (refinement_of self other ontology entities_refined w) in
    (w_heap w1 = w_heap w /\ w_log w1 = w_log w
     /\ at_most_one_call is_isa_call (w_calls w) (w_calls w1))
    /\ (w_heap w2 = w_heap w /\ w_log w2 = w_log w
        /\ at_most_one_call is_opposite_call (w_calls w) (w_calls w2))
    /\ (w_heap w3 = w_heap w /\ w_log w3 = w_log w
        /\ at_most_one_call is_isa_call (w_calls w) (w_calls w3)).
Proof.
  intros self other ontology entities_refined w. cbv zeta.
  split; [apply isa_frame|]. split.
  - unfold is_opposite, bind, reading.
    destruct (get_grounding (w_heap w) self None) as [[ns1 id1]|e];
      [|frame_done].
    destruct (get_grounding (w_heap w) other None) as [[ns2 id2]|e];
      [|frame_done].
    destruct (forallb truthy [ns1; id1; ns2; id2]); frame_done.
  - rewrite refinement_of_run.
    destruct (negb (cls self =? cls other)%string); [frame_done|].
    destruct entities_refined; [frame_done|].
    destruct (entity_matches (w_heap w) self other) as [[|]|e];
      try frame_done.
    apply isa_frame.
Qed.

(** X8: a concept whose key can be computed refines itself, whatever the
    ontology says and whatever [entities_refined] is, and the ontology is
    not called. *)
Theorem refinement_of_reflexive :
  forall (self : Concept) (ontology : Ontology) (entities_refined : bool)
         (w : world) (key : string),
    entity_matches_key (w_heap w) self = Ok key ->
    refinement_of self self ontology entities_refined w = (Ok true, w).
Proof.
  intros self ontology entities_refined w key Hkey.
  unfold refinement_of. rewrite String.eqb_refl. cbn [negb].
  destruct entities_refined; [reflexivity|].
  unfold bind, reading, entity_matches. rewrite Hkey. cbn [obind].
  now rewrite String.eqb_refl.
Qed.

Lemma refinement_of_reflexive_witness :
  let w := mkWorld [[("UN", PyStr "entities/food")]] [] [] in
  refinement_of (mkConcept "Concept" "food" 0) (mkConcept "Concept" "food" 0)
                (mkOntology (fun _ _ _ _ => false) (fun _ _ _ _ => false))
                false w
  = (Ok true, w).
Proof.
  cbv zeta.
  apply (refinement_of_reflexive
           (mkConcept "Concept" "food" 0)
           (mkOntology (fun _ _ _ _ => false) (fun _ _ _ _ => false))
           false
           (mkWorld [[("UN", PyStr "entities/food")]] [] [])
           "('UN', 'entities/food')").
  reflexivity.
Defined.

(* ===================================================================== *)
(** ** More on serialisation *)
(* ===================================================================== *)

Lemma dict_set_keys (d : dict) (k : string) (v : pyval) :
  In k (map fst d) -> map fst (dict_set d k v) = map fst d.
Proof.
  induction d as [|[k0 v0] d IH]; simpl; intros Hin; [destruct Hin|].
  destruct (String.eqb_spec k0 k) as [->|Hne]; [reflexivity|].
  simpl. rewrite IH; [reflexivity|]. destruct Hin as [Heq|Hin]; [contradiction|assumption].
Qed.

(** What the loop of [_from_json] never touches, whether it ends or
    raises: the log, the calls, the number of dictionaries, the other
    dictionaries, and the keys of the dictionary it works on. *)
Lemma fix_items_frame (r : ref) :
  forall (items : dict) (w : world) (o : outcome unit) (w' : world),
    (forall kv, In kv items -> In (fst kv) (map fst (deref (w_heap w) r))) ->
    fix_items r items w = (o, w') ->
    w_log w' = w_log w
    /\ w_calls w' = w_calls w
    /\ List.length (w_heap w') = List.length (w_heap w)
    /\ (forall r', r' <> r -> deref (w_heap w') r' = deref (w_heap w) r')
    /\ map fst (deref (w_heap w') r) = map fst (deref (w_heap w) r).
Proof.
  induction items as [|[k v] items IH]; intros w o w' Hkeys Hrun.
  - cbn in Hrun. injection Hrun as <- <-. now repeat split.
  - cbn [fix_items] in Hrun. unfold bind at 1 in Hrun.
    assert (Hk : In k (map fst (deref (w_heap w) r)))
      by (apply (Hkeys (k, v)); now left).
    assert (Hrest : forall kv, In kv items ->
                               In (fst kv) (map fst (deref (w_heap w) r)))
      by (intros kv Hin; apply Hkeys; now right).
    destruct (is_list v) eqn:Hv.
    + destruct v as [| | |l|]; try discriminate.
      unfold bind at 1, reading in Hrun. cbn [iterate obind] in Hrun.
      destruct (omap tuple l) as [l'|e].
      * unfold setitem in Hrun.
        assert (Hr : r < List.length (w_heap w)).
        { apply deref_valid. intros He. now rewrite He in Hk. }
        set (w1 := mkWorld _ _ _) in Hrun.
        assert (Hd1 : map fst (deref (w_heap w1) r) = map fst (deref (w_heap w) r)).
        { unfold w1. cbn [w_heap]. rewrite deref_heap_set_same by assumption.
          now apply dict_set_keys. }
        destruct (IH w1 o w') as [Hl [Hc [Hlen [Ho Hks]]]].
        { intros kv Hin. rewrite Hd1. now apply Hrest. }
        { exact Hrun. }
        rewrite Hl, Hc, Hlen, Hks, Hd1. unfold w1. cbn [w_heap w_log w_calls].
        rewrite heap_set_length. repeat split.
        intros r' Hr'. rewrite Ho by assumption. unfold w1. cbn [w_heap].
        apply deref_heap_set_other. congruence.
      * injection Hrun as <- <-. now repeat split.
    + unfold ret in Hrun. now apply (IH w o w').
Qed.

Lemma from_json_facts (json_dict : json) (w : world) (c : Concept) (w' : world) :
  _from_json json_dict w = (Ok (Some c), w') ->
  j_name json_dict = Some (name c) /\ name c <> "" /\ cls c = "Concept"
  /\ w_log w' = w_log w /\ w_calls w' = w_calls w
  /\ List.length (w_heap w) <= List.length (w_heap w')
  /\ (forall r', r' < List.length (w_heap w) -> j_db_refs json_dict <> Some r' ->
                 deref (w_heap w') r' = deref (w_heap w) r')
  /\ match j_db_refs json_dict with
     | Some r =>
         (deref (w_heap w) r <> [] ->
          db_refs c = r
          /\ List.length (w_heap w') = List.length (w_heap w)
          /\ map fst (deref (w_heap w') r) = map fst (deref (w_heap w) r))
         /\ (deref (w_heap w) r = [] ->
             db_refs c = List.length (w_heap w)
             /\ deref (w_heap w') (db_refs c) = [])
     | None =>
         db_refs c = S (List.length (w_heap w))
         /\ deref (w_heap w') (db_refs c) = []
     end.
Proof.
  destruct json_dict as [[[|a s]|] dbr]; unfold _from_json; cbn [j_name j_db_refs].
  - destruct dbr; cbn; discriminate.
  - destruct dbr as [r|].
    + unfold bind at 1, ret at 1. unfold bind at 1, reading at 1.
      unfold bind at 1.
      destruct (fix_items r (deref (w_heap w) r) w) as [[[]|e] w1] eqn:Hfix;
        [|discriminate].
      destruct (fix_items_frame r _ w _ w1 (fun kv Hin => in_map fst _ kv Hin) Hfix)
        as [Hl [Hc [Hlen [Ho Hks]]]].
      unfold bind at 1, Concept_init, bind at 1, reading.
      destruct (deref (w_heap w1) r) as [|kv1 d1] eqn:Hd1.
      * unfold bind, alloc, ret. intros H. injection H as <- <-.
        cbn [name cls db_refs w_heap w_log w_calls].
        assert (Hd : deref (w_heap w) r = []).
        { destruct (deref (w_heap w) r); [reflexivity | discriminate]. }
        split; [reflexivity|]. split; [discriminate|]. split; [reflexivity|].
        split; [assumption|]. split; [assumption|].
        split; [rewrite length_app; lia|].
        split.
        { intros r' Hr' Hne. rewrite deref_alloc_old by lia.
          apply Ho. intros ->. now apply Hne. }
        split.
        { intros Hne. now contradiction Hne. }
        intros _. split; [assumption|].
        rewrite Hlen. rewrite <- Hlen. apply deref_alloc_new.
      * unfold ret. intros H. injection H as <- <-.
        cbn [name cls db_refs].
        assert (Hd : deref (w_heap w) r <> []).
        { intros He. rewrite He in Hks. discriminate. }
        split; [reflexivity|]. split; [discriminate|]. split; [reflexivity|].
        split; [assumption|]. split; [assumption|].
        split; [lia|].
        split.
        { intros r' Hr' Hne. apply Ho. intros ->. now apply Hne. }
        split.
        { intros _. split; [reflexivity|]. split; [assumption|].
          rewrite Hd1. exact Hks. }
        intros He. now contradiction Hd.
    + unfold Concept_init, bind, alloc, ret, reading. cbn [w_heap].
      rewrite deref_alloc_new. cbn [fix_items]. unfold ret. cbn [w_heap].
      rewrite deref_alloc_new.
      intros H. injection H as <- <-.
      cbn [name cls db_refs w_heap w_log w_calls].
      split; [reflexivity|]. split; [discriminate|]. split; [reflexivity|].
      split; [reflexivity|]. split; [reflexivity|].
      split; [rewrite !length_app; lia|].
      split.
      { intros r' Hr' _. rewrite !deref_alloc_old; [reflexivity | lia |].
        rewrite length_app. simpl. lia. }
      split; [rewrite length_app; simpl; lia|].
      apply deref_alloc_new.
  - destruct dbr; cbn; discriminate.
Qed.

(** X9: a concept that [_from_json] returns is of class [Concept], has
    the name of the record, and that name is not empty.  Nothing is
    logged, the ontology is not called, no dictionary is removed, and
    every dictionary other than the record's [db_refs] is as it was. *)
Theorem from_json_result_invariant :
  forall (json_dict : json) (w : world) (c : Concept) (w' : world),
    _from_json json_dict w = (Ok (Some c), w') ->
    j_name json_dict = Some (name c)
    /\ name c <> ""
    /\ cls c = "Concept"
    /\ w_log w' = w_log w
    /\ w_calls w' = w_calls w
    /\ List.length (w_heap w) <= List.length (w_heap w')
    /\ (forall r, r < List.length (w_heap w) -> j_db_refs json_dict <> Some r ->
                  deref (w_heap w') r = deref (w_heap w) r).
Proof.
  intros json_dict w c w' H.
  destruct (from_json_facts json_dict w c w' H)
    as [H1 [H2 [H3 [H4 [H5 [H6 [H7 _]]]]]]].
  repeat split; assumption.
Qed.

Lemma from_json_result_invariant_witness :
  let w := mkWorld [[("UN", PyStr "u")]; [("WM", PyList [PyList [PyStr "a"]])]] [] [] in
  let c := mkConcept "Concept" "rain" 1 in
  let w' := mkWorld [[("UN", PyStr "u")]; [("WM", PyList [PyTuple [PyStr "a"]])]] [] [] in
  Some "rain" = Some (name c)
  /\ name c <> ""
  /\ cls c = "Concept"
  /\ w_log w' = w_log w
  /\ w_calls w' = w_calls w
  /\ List.length (w_heap w) <= List.length (w_heap w')
  /\ (forall r, r < List.length (w_heap w) -> Some 1 <> Some r ->
                deref (w_heap w') r = deref (w_heap w) r).
Proof.
  apply (from_json_result_invariant
           (mkJson (Some "rain") (Some 1))
           (mkWorld [[("UN", PyStr "u")]; [("WM", PyList [PyList [PyStr "a"]])]] [] [])
           (mkConcept "Concept" "rain" 1)
           (mkWorld [[("UN", PyStr "u")]; [("WM", PyList [PyTuple [PyStr "a"]])]] [] [])).
  reflexivity.
Defined.

(** X10: the concept that [_from_json] returns shares the dictionary of
    the record exactly when that dictionary is not empty, and then no
    dictionary is created and the keys of the shared one are as they
    were.  When the record has an empty [db_refs], or none, the concept
    holds a dictionary that did not exist before, and it is empty. *)
Theorem from_json_shares_nonempty_db_refs :
  forall (json_dict : json) (w : world) (c : Concept) (w' : world),
    _from_json json_dict w = (Ok (Some c), w') ->
    (forall r, j_db_refs json_dict = Some r -> deref (w_heap w) r <> [] ->
               db_refs c = r
               /\ List.length (w_heap w') = List.length (w_heap w)
               /\ map fst (deref (w_heap w') r) = map fst (deref (w_heap w) r))
    /\ ((j_db_refs json_dict = None
         \/ exists r, j_db_refs json_dict = Some r /\ deref (w_heap w) r = []) ->
        List.length (w_heap w) <= db_refs c
        /\ deref (w_heap w') (db_refs c) = []).
Proof.
  intros json_dict w c w' H.
  destruct (from_json_facts json_dict w c w' H)
    as [_ [_ [_ [_ [_ [_ [_ Hrefs]]]]]]].
  split.
  - intros r Hr Hne. rewrite Hr in Hrefs. now apply Hrefs.
  - intros [Hnone | [r [Hr He]]].
    + rewrite Hnone in Hrefs. destruct Hrefs as [-> Hd]. split; [lia | assumption].
    + rewrite Hr in Hrefs. destruct Hrefs as [_ Hrefs].
      destruct (Hrefs He) as [-> Hd]. split; [lia | assumption].
Qed.

Lemma from_json_shares_nonempty_db_refs_witness :
  let w := mkWorld [[]; [("WM", PyStr "x")]] [] [] in
  (forall r, Some 1 = Some r -> deref (w_heap w) r <> [] ->
             db_refs (mkConcept "Concept" "rain" 1) = r
             /\ List.length (w_heap w) = List.length (w_heap w)
             /\ map fst (deref (w_heap w) r) = map fst (deref (w_heap w) r))
  /\ ((Some 1 = None \/ exists r, Some 1 = Some r /\ deref (w_heap w) r = []) ->
      List.length (w_heap w) <= db_refs (mkConcept "Concept" "rain" 1)
      /\ deref (w_heap w) (db_refs (mkConcept "Concept" "rain" 1)) = []).
Proof.
  apply (from_json_shares_nonempty_db_refs
           (mkJson (Some "rain") (Some 1))
           (mkWorld [[]; [("WM", PyStr "x")]] [] [])
           (mkConcept "Concept" "rain" 1)
           (mkWorld [[]; [("WM", PyStr "x")]] [] [])).
  reflexivity.
Defined.

(** X11: decoding and then encoding gives the record back.  When
    [_from_json] returns a concept for a record with a non-empty
    [db_refs], [to_json] of that concept is the record itself, field for
    field, with the same dictionary behind it. *)
Theorem to_json_from_json :
  forall (json_dict : json) (w : world) (c : Concept) (w' : world) (r : ref),
    _from_json json_dict w = (Ok (Some c), w') ->
    j_db_refs json_dict = Some r ->
    deref (w_heap w) r <> [] ->
    to_json c w' = (Ok json_dict, w').
Proof.
  intros json_dict w c w' r H Hr Hne.
  destruct (from_json_facts json_dict w c w' H)
    as [Hname [_ [_ [_ [_ [_ [_ Hrefs]]]]]]].
  rewrite Hr in Hrefs. destruct Hrefs as [Hrefs _].
  destruct (Hrefs Hne) as [Hc _].
  unfold to_json, ret. destruct json_dict as [n dbr].
  cbn [j_name j_db_refs] in *. now rewrite Hc, <- Hname, Hr.
Qed.

Lemma to_json_from_json_witness :
  to_json (mkConcept "Concept" "rain" 0)
          (mkWorld [[("WM", PyList [PyTuple [PyStr "a"; PyStr "b"]])]] [] [])
  = (Ok (mkJson (Some "rain") (Some 0)),
     mkWorld [[("WM", PyList [PyTuple [PyStr "a"; PyStr "b"]])]] [] []).
Proof.
  apply (to_json_from_json
           (mkJson (Some "rain") (Some 0))
           (mkWorld [[("WM", PyList [PyList [PyStr "a"; PyStr "b"]])]] [] [])
           (mkConcept "Concept" "rain" 0)
           (mkWorld [[("WM", PyList [PyTuple [PyStr "a"; PyStr "b"]])]] [] [])
           0).
  - reflexivity.
  - reflexivity.
  - discriminate.
Defined.

Lemma round_trip_from_json (c : Concept) (w : world) :
  round_trip c w = _from_json (mkJson (Some (name c)) (Some (db_refs c))) w.
Proof.
  reflexivity.
Qed.

Lemma tuples_of_idem (l : list pyval) : tuples_of (tuples_of l) = tuples_of l.
Proof.
  unfold tuples_of. destruct (omap tuple l) as [l'|e] eqn:E.
  - now rewrite (omap_tuple_fixed l' (omap_tuple_tuples l l' E)).
  - now rewrite E.
Qed.

Lemma fix_entry_idem (kv : string * pyval) : fix_entry (fix_entry kv) = fix_entry kv.
Proof.
  destruct kv as [k [| | |l|]]; try reflexivity.
  unfold fix_entry. cbn [fst snd fix_value]. now rewrite tuples_of_idem.
Qed.

Lemma fix_entry_keys (d : dict) : map fst (map fix_entry d) = map fst d.
Proof.
  rewrite map_map. apply map_ext. now intros [k v].
Qed.

Lemma fix_entry_iterable (d : dict) :
  (forall k l, In (k, PyList l) d -> forallb is_iterable l = true) ->
  forall k l, In (k, PyList l) (map fix_entry d) -> forallb is_iterable l = true.
Proof.
  intros Hit k l Hin. apply in_map_iff in Hin.
  destruct Hin as [[k0 v0] [Heq Hin]]. unfold fix_entry in Heq.
  cbn [fst snd] in Heq. injection Heq as -> Hv.
  destruct v0 as [| | |l0|]; try discriminate.
  cbn [fix_value] in Hv. injection Hv as <-.
  destruct (omap_tuple_iterable l0 (Hit k l0 Hin)) as [l' Hl'].
  unfold tuples_of. rewrite Hl'.
  apply is_tuple_is_iterable. now apply (omap_tuple_tuples l0).
Qed.

(** X12: deserialising the same record a second time is without effect.
    For a record with a non-empty name and a non-empty [db_refs] whose
    lists hold only strings, lists and tuples, [_from_json] returns a
    concept, and a second [_from_json] on the record returns the same
    concept and leaves every dictionary, the log and the calls as the
    first one left them. *)
Theorem from_json_idempotent :
  forall (n : string) (r : ref) (w : world),
    let d := deref (w_heap w) r in
    n <> "" ->
    dict_wf d ->
    d <> [] ->
    (forall k l, In (k, PyList l) d -> forallb is_iterable l = true) ->
    exists (c : Concept) (w' : world),
      _from_json (mkJson (Some n) (Some r)) w = (Ok (Some c), w')
      /\ _from_json (mkJson (Some n) (Some r)) w' = (Ok (Some c), w').
Proof.
  intros n r w d Hn Hwf Hne Hit.
  pose proof (round_trip_run (mkConcept "Concept" n r) w Hn Hwf Hne Hit) as H1.
  rewrite round_trip_from_json in H1. cbn [name db_refs] in H1. fold d in H1.
  assert (Hr : r < List.length (w_heap w)) by now apply deref_valid.
  set (w' := mkWorld (heap_set (w_heap w) r (map fix_entry d)) (w_log w) (w_calls w)) in *.
  assert (Hd' : deref (w_heap w') r = map fix_entry d).
  { unfold w'. cbn [w_heap]. now apply deref_heap_set_same. }
  exists (mkConcept "Concept" n r), w'. split; [exact H1|].
  pose proof (round_trip_run (mkConcept "Concept" n r) w') as H2.
  cbv zeta in H2. rewrite round_trip_from_json in H2. cbn [name db_refs] in H2.
  rewrite Hd' in H2. rewrite H2.
  - f_equal. unfold w'. cbn [w_heap w_log w_calls].
    rewrite heap_set_twice. f_equal. f_equal.
    rewrite map_map. apply map_ext. apply fix_entry_idem.
  - exact Hn.
  - unfold dict_wf. now rewrite fix_entry_keys.
  - intros He. apply Hne. destruct d; [reflexivity | discriminate].
  - now apply fix_entry_iterable.
Qed.

Lemma from_json_idempotent_witness :
  exists (c : Concept) (w' : world),
    _from_json (mkJson (Some "rain") (Some 0))
               (mkWorld [[("WM", PyList [PyList [PyStr "a"; PyFloat "0.3" (3 # 10)%Q]]);
                          ("UN", PyStr "u")]] [] [])
      = (Ok (Some c), w')
    /\ _from_json (mkJson (Some "rain") (Some 0)) w' = (Ok (Some c), w').
Proof.
  apply (from_json_idempotent
           "rain" 0
           (mkWorld [[("WM", PyList [PyList [PyStr "a"; PyFloat "0.3" (3 # 10)%Q]]);
                      ("UN", PyStr "u")]] [] [])).
  - discriminate.
  - unfold dict_wf. simpl. repeat constructor; simpl; intuition discriminate.
  - discriminate.
  - intros k l [H | [H | []]]; [|discriminate].
    injection H as _ <-. reflexivity.
Defined.

Lemma omap_tuple_raises (l : list pyval) :
  forallb is_iterable l = false -> omap tuple l = Raise TypeError.
Proof.
  induction l as [|x l IH]; simpl; intros H; [discriminate|].
  apply andb_false_iff in H.
  destruct x as [|s|t q|l0|l0]; try reflexivity;
    (destruct H as [H|H]; [discriminate|]); cbn; now rewrite (IH H).
Qed.

(** The loop of [_from_json] over the first part [items] of what is left
    to visit. *)
Lemma fix_items_prefix (r : ref) :
  forall (items pre rest : dict) (w : world),
    deref (w_heap w) r = pre ++ items ++ rest ->
    NoDup (map fst (pre ++ items ++ rest)) ->
    (forall k l, In (k, PyList l) items -> forallb is_iterable l = true) ->
    fix_items r (items ++ rest) w =
      fix_items r rest
        (mkWorld (heap_set (w_heap w) r (pre ++ map fix_entry items ++ rest))
                 (w_log w) (w_calls w)).
Proof.
  induction items as [|[k v] items IH]; intros pre rest w Hd Hnd Hit.
  - cbn [app map] in *. now rewrite <- Hd, heap_set_deref, world_eta.
  - assert (Hk : ~ In k (map fst pre)).
    { rewrite map_app in Hnd. cbn [app map fst] in Hnd.
      apply NoDup_remove_2 in Hnd. intros Hin. apply Hnd.
      apply in_or_app. now left. }
    assert (Hlater : forall k' l, In (k', PyList l) items ->
                                  forallb is_iterable l = true).
    { intros k' l Hin. apply (Hit k' l). now right. }
    assert (Hshape : forall v' tl, pre ++ (k, v') :: tl = (pre ++ [(k, v')]) ++ tl).
    { intros v' tl. now rewrite <- app_assoc. }
    cbn [app fix_items]. unfold bind at 1.
    destruct (is_list v) eqn:Hv.
    + destruct v as [| | |l|]; try discriminate.
      destruct (omap_tuple_iterable l (Hit k l (or_introl eq_refl))) as [l' Hl'].
      unfold bind at 1. unfold reading. cbn [iterate obind]. rewrite Hl'.
      unfold setitem. rewrite Hd. cbn [app]. rewrite dict_set_mid by assumption.
      assert (Hr : r < List.length (w_heap w)).
      { apply deref_valid. rewrite Hd. now destruct pre. }
      rewrite (IH (pre ++ [(k, PyList l')])).
      * cbn [w_heap w_log w_calls]. rewrite heap_set_twice, <- app_assoc.
        cbn [map app]. unfold fix_entry at 2. cbn [fst snd fix_value].
        unfold tuples_of. rewrite Hl'. reflexivity.
      * cbn [w_heap]. rewrite deref_heap_set_same by assumption. apply Hshape.
      * assert (Hsame : map fst ((pre ++ [(k, PyList l')]) ++ items ++ rest)
                        = map fst (pre ++ ((k, PyList l) :: items) ++ rest)).
        { rewrite <- app_assoc. rewrite !map_app. reflexivity. }
        rewrite Hsame. exact Hnd.
      * exact Hlater.
    + unfold ret. rewrite (IH (pre ++ [(k, v)])).
      * rewrite <- app_assoc. cbn [map app]. unfold fix_entry at 2.
        cbn [fst snd]. destruct v; try discriminate; reflexivity.
      * rewrite Hd. apply Hshape.
      * rewrite <- Hshape. exact Hnd.
      * exact Hlater.
Qed.

(** X13: [_from_json] is not all-or-nothing.  When a list of the record's
    [db_refs] holds an element that cannot be iterated ([None] or a
    number), [_from_json] raises [TypeError] and returns no concept; the
    lists under the keys before that one have already been rewritten, the
    failing list and everything after it are as they were. *)
Theorem from_json_raises_after_partial_rewrite :
  forall (n : string) (r : ref) (w : world)
         (before : dict) (k : string) (l : list pyval) (after : dict),
    n <> "" ->
    deref (w_heap w) r = before ++ (k, PyList l) :: after ->
    dict_wf (before ++ (k, PyList l) :: after) ->
    (forall k' l', In (k', PyList l') before -> forallb is_iterable l' = true) ->
    forallb is_iterable l = false ->
    _from_json (mkJson (Some n) (Some r)) w =
      (Raise TypeError,
       mkWorld (heap_set (w_heap w) r
                         (map fix_entry before ++ (k, PyList l) :: after))
               (w_log w) (w_calls w)).
Proof.
  intros n r w before k l after Hn Hd Hwf Hit Hbad.
  unfold _from_json. cbn [j_name j_db_refs].
  destruct n as [|a s]; [now contradiction Hn|].
  unfold bind at 1, ret at 1. unfold bind at 1, reading at 1.
  unfold bind at 1. rewrite Hd.
  rewrite (fix_items_prefix r before [] ((k, PyList l) :: after) w Hd Hwf Hit).
  cbn [app fix_items]. unfold bind at 1. cbn [is_list].
  unfold bind at 1, reading. cbn [iterate obind].
  now rewrite (omap_tuple_raises l Hbad).
Qed.

Lemma from_json_raises_after_partial_rewrite_witness :
  _from_json (mkJson (Some "rain") (Some 0))
             (mkWorld [[("WM", PyList [PyList [PyStr "a"; PyStr "b"]]);
                        ("UN", PyList [PyNone]);
                        ("HUME", PyList [PyList [PyStr "c"]])]] [] [])
  = (Raise TypeError,
     mkWorld [[("WM", PyList [PyTuple [PyStr "a"; PyStr "b"]]);
               ("UN", PyList [PyNone]);
               ("HUME", PyList [PyList [PyStr "c"]])]] [] []).
Proof.
  apply (from_json_raises_after_partial_rewrite
           "rain" 0
           (mkWorld [[("WM", PyList [PyList [PyStr "a"; PyStr "b"]]);
                      ("UN", PyList [PyNone]);
                      ("HUME", PyList [PyList [PyStr "c"]])]] [] [])
           [("WM", PyList [PyList [PyStr "a"; PyStr "b"]])]
           "UN" [PyNone]
           [("HUME", PyList [PyList [PyStr "c"]])]).
  - discriminate.
  - reflexivity.
  - unfold dict_wf. simpl. repeat constructor; simpl; intuition discriminate.
  - intros k' l' [H | []]. injection H as _ <-. reflexivity.
  - reflexivity.
Defined.

Lemma deref_alloc_empty (h : heap) (r : ref) :
  deref h r = [] -> deref (h ++ [[]]) r = [].
Proof.
  unfold deref. intros H.
  destruct (Nat.lt_ge_cases r (List.length h)) as [Hl|Hl].
  - now rewrite app_nth1.
  - destruct (Nat.eq_dec r (List.length h)) as [->|Hne].
    + now rewrite app_nth2, Nat.sub_diag by lia.
    + apply nth_overflow. rewrite length_app. simpl. lia.
Qed.

Lemma Concept_init_fresh (n : string) (dbr : option ref) (w : world) :
  (forall r, dbr = Some r -> deref (w_heap w) r = []) ->
  Concept_init n dbr w =
    (Ok (mkConcept "Concept" n (List.length (w_heap w))),
     mkWorld (w_heap w ++ [[]]) (w_log w) (w_calls w)).
Proof.
  intros H. unfold Concept_init. destruct dbr as [r|]; [|reflexivity].
  unfold bind at 1, reading. now rewrite (H r eq_refl).
Qed.

(** X14: no dictionary is shared behind the back of the caller.  Two
    concepts constructed without [db_refs], or with an empty one, hold
    two different dictionaries that did not exist before: after a key is
    set in the first, the second is still empty and every dictionary that
    existed is as it was. *)
Theorem concept_init_fresh_db_refs :
  forall (n1 n2 : string) (dbr1 dbr2 : option ref) (w : world)
         (k : string) (v : pyval),
    (forall r, dbr1 = Some r -> deref (w_heap w) r = []) ->
    (forall r, dbr2 = Some r -> deref (w_heap w) r = []) ->
    exists (c1 c2 : Concept) (w' : world),
      bind (Concept_init n1 dbr1)
           (fun c1 => bind (Concept_init n2 dbr2)
                           (fun c2 => bind (setitem (db_refs c1) k v)
                                           (fun _ => ret (c1, c2)))) w
        = (Ok (c1, c2), w')
      /\ db_refs c1 <> db_refs c2
      /\ List.length (w_heap w) <= db_refs c1
      /\ List.length (w_heap w) <= db_refs c2
      /\ deref (w_heap w') (db_refs c1) = [(k, v)]
      /\ deref (w_heap w') (db_refs c2) = []
      /\ (forall r, r < List.length (w_heap w) ->
                    deref (w_heap w') r = deref (w_heap w) r).
Proof.
  intros n1 n2 dbr1 dbr2 w k v H1 H2.
  set (h := w_heap w).
  exists (mkConcept "Concept" n1 (List.length h)).
  exists (mkConcept "Concept" n2 (S (List.length h))).
  eexists. split.
  - unfold bind at 1. rewrite Concept_init_fresh by assumption.
    unfold bind at 1. rewrite Concept_init_fresh.
    + cbn [w_heap w_log w_calls]. fold h.
      replace (List.length (h ++ [[]])) with (S (List.length h))
        by (rewrite length_app; simpl; lia).
      reflexivity.
    + intros r Hr. cbn [w_heap]. apply deref_alloc_empty. now apply H2.
  - cbn [db_refs w_heap].
    assert (Hlen : List.length h < List.length ((h ++ [[]]) ++ [[]]))
      by (rewrite !length_app; simpl; lia).
    split; [lia|]. split; [lia|]. split; [lia|]. split; [|split].
    + rewrite deref_heap_set_same by assumption.
      rewrite deref_alloc_old by (rewrite length_app; simpl; lia).
      now rewrite deref_alloc_new.
    + rewrite deref_heap_set_other by lia.
      replace (S (List.length h)) with (List.length (h ++ [[]]))
        by (rewrite length_app; simpl; lia).
      apply deref_alloc_new.
    + intros r Hr. rewrite deref_heap_set_other by lia.
      rewrite !deref_alloc_old; [reflexivity | assumption |].
      rewrite length_app. simpl. lia.
Qed.

Lemma concept_init_fresh_db_refs_witness :
  exists (c1 c2 : Concept) (w' : world),
    bind (Concept_init "rain" None)
         (fun c1 => bind (Concept_init "flood" (Some 0))
                         (fun c2 => bind (setitem (db_refs c1) "WM" (PyStr "x"))
                                         (fun _ => ret (c1, c2))))
         (mkWorld [[]] [] [])
      = (Ok (c1, c2), w')
    /\ db_refs c1 <> db_refs c2
    /\ 1 <= db_refs c1
    /\ 1 <= db_refs c2
    /\ deref (w_heap w') (db_refs c1) = [("WM", PyStr "x")]
    /\ deref (w_heap w') (db_refs c2) = []
    /\ (forall r, r < 1 -> deref (w_heap w') r = deref [[]] r).
Proof.
  apply (concept_init_fresh_db_refs
           "rain" "flood" None (Some 0) (mkWorld [[]] [] []) "WM" (PyStr "x")).
  - discriminate.
  - intros r H. injection H as <-. reflexivity.
Defined.

(* ===================================================================== *)
(** ** The gene assembler *)
(* ===================================================================== *)

Lemma set_add_in (x g : string) (s : list string) :
  In g (set_add x s) <-> In g s \/ g = x.
Proof.
  unfold set_add. destruct (existsb (String.eqb x) s) eqn:E.
  - split; [now left|]. intros [H | ->]; [assumption|].
    apply existsb_exists in E. destruct E as [y [Hy Heq]].
    apply String.eqb_eq in Heq. now subst.
  - rewrite in_app_iff. simpl. intuition.
Qed.

Lemma set_add_present (x : string) (s : list string) :
  In x s -> set_add x s = s.
Proof.
  intros H. unfold set_add.
  assert (E : existsb (String.eqb x) s = true).
  { apply existsb_exists. exists x. split; [assumption | apply String.eqb_refl]. }
  now rewrite E.
Qed.

Lemma set_add_nodup (x : string) (s : list string) :
  NoDup s -> NoDup (set_add x s).
Proof.
  intros H. unfold set_add. destruct (existsb (String.eqb x) s) eqn:E;
    [assumption|].
  apply NoDup_app; [assumption | repeat constructor; intros [] |].
  intros y Hy [Heq | []]. subst y.
  assert (existsb (String.eqb x) s = true); [|congruence].
  apply existsb_exists. exists x. split; [assumption | apply String.eqb_refl].
Qed.

Lemma add_agents_in (h : heap) (agents : list (option Concept)) :
  forall (gs : list string) (g : string),
    In g (add_agents h agents gs) <-> In g gs \/ contributes h agents g.
Proof.
  unfold contributes.
  induction agents as [|[agent|] agents IH]; intros gs g; cbn [add_agents].
  - split; [now left|]. intros [H | [a [[] _]]]. exact H.
  - destruct (dict_has (deref h (db_refs agent)) "HGNC") eqn:E.
    + rewrite IH, set_add_in. split.
      * intros [[H | ->] | [a [Hin [Hh Hn]]]].
        -- now left.
        -- right. exists agent. repeat split; [now left | assumption].
        -- right. exists a. repeat split; [now right | assumption | assumption].
      * intros [H | [a [[Heq | Hin] [Hh Hn]]]].
        -- left. now left.
        -- injection Heq as <-. left. right. now symmetry.
        -- right. exists a. now repeat split.
    + rewrite IH. split.
      * intros [H | [a [Hin [Hh Hn]]]]; [now left|].
        right. exists a. repeat split; [now right | assumption | assumption].
      * intros [H | [a [[Heq | Hin] [Hh Hn]]]]; [now left | |].
        -- injection Heq as <-. congruence.
        -- right. exists a. now repeat split.
  - rewrite IH. split.
    + intros [H | [a [Hin [Hh Hn]]]]; [now left|].
      right. exists a. repeat split; [now right | assumption | assumption].
    + intros [H | [a [[Heq | Hin] [Hh Hn]]]]; [now left | discriminate |].
      right. exists a. now repeat split.
Qed.

Lemma add_agents_nodup (h : heap) (agents : list (option Concept)) :
  forall gs, NoDup gs -> NoDup (add_agents h agents gs).
Proof.
  induction agents as [|[agent|] agents IH]; intros gs H; cbn [add_agents].
  - assumption.
  - destruct (dict_has (deref h (db_refs agent)) "HGNC");
      [apply IH; now apply set_add_nodup | now apply IH].
  - now apply IH.
Qed.

Lemma add_agents_noop (h : heap) (agents : list (option Concept)) (gs : list string) :
  (forall g, contributes h agents g -> In g gs) ->
  add_agents h agents gs = gs.
Proof.
  unfold contributes.
  induction agents as [|[agent|] agents IH]; intros H; cbn [add_agents].
  - reflexivity.
  - assert (Hrest : forall g, (exists a, In (Some a) agents
                      /\ dict_has (deref h (db_refs a)) "HGNC" = true
                      /\ name a = g) -> In g gs).
    { intros g [a [Hin Ha]]. apply H. exists a. split; [now right | assumption]. }
    destruct (dict_has (deref h (db_refs agent)) "HGNC") eqn:E; [|now apply IH].
    rewrite set_add_present; [now apply IH|].
    apply H. exists agent. repeat split; [now left | assumption].
  - apply IH. intros g [a [Hin Ha]]. apply H. exists a.
    split; [now right | assumption].
Qed.

Lemma add_statements_in (h : heap) (sts : list Statement) :
  forall (gs : list string) (g : string),
    In g (add_statements h sts gs) <->
    In g gs \/ exists statement agents,
                 In statement sts /\ agent_list statement = Ok agents
                 /\ contributes h agents g.
Proof.
  induction sts as [|st sts IH]; intros gs g; cbn [add_statements].
  - split; [now left|]. intros [H | [s [a [[] _]]]]. exact H.
  - destruct (agent_list st) as [agents|e] eqn:E.
    + rewrite IH, add_agents_in. split.
      * intros [[H | H] | [s [a [Hin Hs]]]].
        -- now left.
        -- right. exists st, agents. repeat split; [now left | assumption | assumption].
        -- right. exists s, a. split; [now right | assumption].
      * intros [H | [s [a [[<- | Hin] [Hl Hc]]]]].
        -- left. now left.
        -- rewrite E in Hl. injection Hl as <-. left. now right.
        -- right. exists s, a. now repeat split.
    + rewrite IH. split.
      * intros [H | [s [a [Hin Hs]]]]; [now left|].
        right. exists s, a. split; [now right | assumption].
      * intros [H | [s [a [[<- | Hin] [Hl Hc]]]]]; [now left | congruence |].
        right. exists s, a. now repeat split.
Qed.

Lemma add_statements_nodup (h : heap) (sts : list Statement) :
  forall gs, NoDup gs -> NoDup (add_statements h sts gs).
Proof.
  induction sts as [|st sts IH]; intros gs H; cbn [add_statements];
    [assumption|].
  destruct (agent_list st); [apply IH; now apply add_agents_nodup | now apply IH].
Qed.

Lemma add_statements_noop (h : heap) (sts : list Statement) (gs : list string) :
  (forall statement agents g,
      In statement sts -> agent_list statement = Ok agents ->
      contributes h agents g -> In g gs) ->
  add_statements h sts gs = gs.
Proof.
  induction sts as [|st sts IH]; intros H; cbn [add_statements]; [reflexivity|].
  assert (Hrest : forall statement agents g,
             In statement sts -> agent_list statement = Ok agents ->
             contributes h agents g -> In g gs).
  { intros s a g Hin. apply H. now right. }
  destruct (agent_list st) as [agents|e] eqn:E; [|now apply IH].
  rewrite add_agents_noop; [now apply IH|].
  intros g Hg. apply (H st agents g); [now left | assumption | assumption].
Qed.

(** X15: after [make_model] the genes are those that were there before
    together with the name of every agent that is not [None], has the key
    HGNC in its [db_refs] (whatever the value under it), and comes from a
    statement whose [agent_list()] did not raise; a statement whose
    [agent_list()] raises contributes nothing and does not stop the
    others.  A set without repetition stays without repetition. *)
Theorem make_model_genes :
  forall (h : heap) (self : GeneAssembler),
    (forall g : string,
        In g (genes (make_model h self)) <->
        In g (genes self)
        \/ exists statement agents,
             In statement (stmts self)
             /\ agent_list statement = Ok agents
             /\ contributes h agents g)
    /\ (NoDup (genes self) -> NoDup (genes (make_model h self)))
    /\ stmts (make_model h self) = stmts self.
Proof.
  intros h self. unfold make_model. cbn [genes stmts]. repeat split.
  - now apply add_statements_in.
  - now apply add_statements_in.
  - apply add_statements_nodup.
Qed.

(** X16: [make_model] a second time changes nothing: the genes after two
    calls are the genes after one. *)
Theorem make_model_idempotent :
  forall (h : heap) (self : GeneAssembler),
    make_model h (make_model h self) = make_model h self.
Proof.
  intros h self. unfold make_model. cbn [genes stmts]. f_equal.
  apply add_statements_noop. intros st agents g Hin Hl Hc.
  apply add_statements_in. right. now exists st, agents.
Qed.

Lemma make_model_genes_witness :
  let h := [[("HGNC", PyNone)]; [("UP", PyStr "P1")]; [("HGNC", PyStr "6407")]] in
  let self :=
    mkGeneAssembler
      [mkStatement (Ok [Some (mkConcept "Agent" "KRAS" 0); None;
                        Some (mkConcept "Agent" "aspirin" 1)]);
       mkStatement (Raise TypeError);
       mkStatement (Ok [Some (mkConcept "Agent" "BRAF" 2);
                        Some (mkConcept "Agent" "KRAS" 0)])]
      ["TP53"] in
  (In "BRAF" (genes (make_model h self)) <->
   In "BRAF" (genes self)
   \/ exists statement agents,
        In statement (stmts self)
        /\ agent_list statement = Ok agents
        /\ contributes h agents "BRAF")
  /\ NoDup (genes (make_model h self)).
Proof.
  cbv zeta. split.
  - apply (proj1 (make_model_genes
                    [[("HGNC", PyNone)]; [("UP", PyStr "P1")]; [("HGNC", PyStr "6407")]]
                    (mkGeneAssembler
                       [mkStatement (Ok [Some (mkConcept "Agent" "KRAS" 0); None;
                                         Some (mkConcept "Agent" "aspirin" 1)]);
                        mkStatement (Raise TypeError);
                        mkStatement (Ok [Some (mkConcept "Agent" "BRAF" 2);
                                         Some (mkConcept "Agent" "KRAS" 0)])]
                       ["TP53"]))).
  - apply (proj1 (proj2 (make_model_genes
                    [[("HGNC", PyNone)]; [("UP", PyStr "P1")]; [("HGNC", PyStr "6407")]]
                    (mkGeneAssembler
                       [mkStatement (Ok [Some (mkConcept "Agent" "KRAS" 0); None;
                                         Some (mkConcept "Agent" "aspirin" 1)]);
                        mkStatement (Raise TypeError);
                        mkStatement (Ok [Some (mkConcept "Agent" "BRAF" 2);
                                         Some (mkConcept "Agent" "KRAS" 0)])]
                       ["TP53"])))).
    cbn [genes]. constructor; [intros [] | constructor].
Defined.

Lemma ltb_asym (x y : string) : String.ltb y x = true -> String.ltb x y = false.
Proof.
  unfold String.ltb. rewrite (String.compare_antisym x y).
  now destruct (String.compare y x).
Qed.

Lemma insert_str_perm (x : string) (l : list string) :
  Permutation (insert_str x l) (x :: l).
Proof.
  induction l as [|y l IH]; cbn [insert_str]; [apply Permutation_refl|].
  destruct (String.ltb y x); [|apply Permutation_refl].
  apply Permutation_trans with (y :: x :: l);
    [now apply perm_skip | apply perm_swap].
Qed.

Lemma sorted_str_perm (l : list string) : Permutation (sorted_str l) l.
Proof.
  induction l as [|x l IH]; cbn [sorted_str]; [apply perm_nil|].
  apply Permutation_trans with (x :: sorted_str l);
    [apply insert_str_perm | now apply perm_skip].
Qed.

Lemma insert_str_hd (x a : string) (l : list string) :
  HdRel (fun a b => String.ltb b a = false) a l ->
  String.ltb x a = false ->
  HdRel (fun a b => String.ltb b a = false) a (insert_str x l).
Proof.
  intros Hl Hx. destruct l as [|y l]; cbn [insert_str].
  - now constructor.
  - inversion Hl; subst. destruct (String.ltb y x); now constructor.
Qed.

Lemma insert_str_ascending (x : string) (l : list string) :
  ascending l -> ascending (insert_str x l).
Proof.
  unfold ascending. induction l as [|y l IH]; intros H; cbn [insert_str].
  - repeat constructor.
  - inversion H as [|? ? Hs Hh]; subst.
    destruct (String.ltb y x) eqn:E.
    + constructor; [now apply IH|].
      apply insert_str_hd; [assumption | now apply ltb_asym].
    + constructor; [assumption | now constructor].
Qed.

Lemma sorted_str_ascending (l : list string) : ascending (sorted_str l).
Proof.
  induction l as [|x l IH]; cbn [sorted_str]; [constructor|].
  now apply insert_str_ascending.
Qed.

(** X17: the GSEA text is the first line, a newline, and then the genes
    one per line: every gene of the set once, in ascending order of the
    strings, whatever the order in which the set holds them.  With no
    gene the text is the first line and a newline. *)
Theorem to_gsea_str_lines :
  forall (self : GeneAssembler) (first : string),
    exists lines : list string,
      to_gsea_str self first
        = (first ++ newline ++ String.concat newline lines)%string
      /\ Permutation lines (genes self)
      /\ ascending lines
      /\ (genes self = [] -> to_gsea_str self first = (first ++ newline)%string).
Proof.
  intros self first. exists (sorted_str (genes self)). split; [reflexivity|].
  split; [apply sorted_str_perm|]. split; [apply sorted_str_ascending|].
  intros He. unfold to_gsea_str. rewrite He. cbn [sorted_str String.concat].
  induction first as [|c first IH]; [reflexivity|].
  cbn [append]. now f_equal.
Qed.

(* ===================================================================== *)
(** ** Which entries decide the grounding *)
(* ===================================================================== *)

Lemma dict_get_set_other (d : dict) (k k' : string) (v : pyval) :
  k <> k' -> dict_get (dict_set d k v) k' = dict_get d k'.
Proof.
  intros Hne. induction d as [|[k0 v0] d IH]; simpl.
  - destruct (String.eqb_spec k k'); [contradiction | reflexivity].
  - destruct (String.eqb_spec k0 k) as [->|Hk0]; simpl.
    + destruct (String.eqb_spec k k'); [contradiction | reflexivity].
    + destruct (String.eqb_spec k0 k'); [reflexivity | exact IH].
Qed.

Lemma scan_ext (d d' : dict) (order : list string) :
  (forall n, In n order -> dict_get d' n = dict_get d n) ->
  scan d' order = scan d order.
Proof.
  induction order as [|n order IH]; intros H; simpl; [reflexivity|].
  rewrite (H n (or_introl eq_refl)).
  destruct (truthy (dict_get d n)); simpl; [reflexivity|].
  apply IH. intros m Hm. apply H. now right.
Qed.

(** X18: only the namespaces of the priority order up to the deciding one
    count.  Setting, in the concept's [db_refs], a key that is not in the
    order leaves the result of [get_grounding] as it was; so does setting
    a key that comes after the first namespace with a truthy entry. *)
Theorem get_grounding_ignores_other_keys :
  forall (h : heap) (self : Concept) (ns_order : option (list string))
         (k : string) (v : pyval),
    let d := deref h (db_refs self) in
    let h' := heap_set h (db_refs self) (dict_set d k v) in
    db_refs self < List.length h ->
    (~ In k (effective_order ns_order) ->
     get_grounding h' self ns_order = get_grounding h self ns_order)
    /\ (forall pre ns post,
           effective_order ns_order = pre ++ ns :: post ->
           (forall n, In n pre -> truthy (dict_get d n) = false) ->
           truthy (dict_get d ns) = true ->
           ~ In k (pre ++ [ns]) ->
           get_grounding h' self ns_order = get_grounding h self ns_order).
Proof.
  intros h self ns_order k v d h' Hr. unfold get_grounding, h'.
  rewrite deref_heap_set_same by assumption. fold d. split.
  - intros Hk. apply scan_ext. intros n Hn. apply dict_get_set_other.
    intros ->. now apply Hk.
  - intros pre ns post Ho Hpre Hns Hk. rewrite Ho.
    assert (Hsame : forall n, In n (pre ++ [ns]) ->
                              dict_get (dict_set d k v) n = dict_get d n).
    { intros n Hn. apply dict_get_set_other. intros ->. now apply Hk. }
    rewrite (scan_first_truthy d pre ns post Hpre Hns).
    rewrite (scan_first_truthy (dict_set d k v) pre ns post).
    + rewrite Hsame; [reflexivity|]. apply in_or_app. right. now left.
    + intros n Hn. rewrite Hsame; [now apply Hpre|]. apply in_or_app. now left.
    + rewrite Hsame; [assumption|]. apply in_or_app. right. now left.
Qed.

Lemma get_grounding_ignores_other_keys_witness :
  let h := [[("UN", PyStr "u")]] in
  let self := mkConcept "Concept" "rain" 0 in
  (~ In "TEXT" default_ns_order ->
   get_grounding [dict_set (deref h 0) "TEXT" (PyStr "rain")] self None
   = get_grounding h self None)
  /\ (forall pre ns post,
         default_ns_order = pre ++ ns :: post ->
         (forall n, In n pre -> truthy (dict_get (deref h 0) n) = false) ->
         truthy (dict_get (deref h 0) ns) = true ->
         ~ In "TEXT" (pre ++ [ns]) ->
         get_grounding [dict_set (deref h 0) "TEXT" (PyStr "rain")] self None
         = get_grounding h self None).
Proof.
  cbv zeta.
  apply (get_grounding_ignores_other_keys
           [[("UN", PyStr "u")]] (mkConcept "Concept" "rain" 0) None
           "TEXT" (PyStr "rain")).
  simpl. lia.
Defined.
